(** * libopenapi: a shallow embedding of the document pipeline

    The development follows the Go sources:
    - [Utils]        : utils (ReplaceWindowsDriveWithLinuxPath, CheckPathOverlap)
    - [High]         : datamodel/high/node_builder.go (NodeBuilder)
    - [LowV3], [LowV30] : datamodel/low/v3 and datamodel/low/3.0 (create_document.go)
    - [Translate]    : datamodel (TranslateSliceParallel), from its description

    Go strings are byte strings; they are modelled by [string], whose
    characters are the 256 bytes. *)

From Stdlib Require Import List String Ascii ZArith Lia Bool Arith.
From Stdlib Require Import Permutation Sorted DecimalString.
Import ListNotations.

Set Warnings "-register-all".

Local Open Scope list_scope.
Local Open Scope string_scope.

(** ** Go byte strings *)

Module GoString.

Definition byte_eqb (a b : ascii) : bool := Ascii.eqb a b.

(** [len(s)] *)
Definition len (s : string) : nat := String.length s.

(** [s[n:]] for [n <= len(s)] (the empty string past the end). *)
Fixpoint drop (n : nat) (s : string) : string :=
  match n, s with
  | O, _ => s
  | S _, EmptyString => EmptyString
  | S k, String _ rest => drop k rest
  end.

(** [s[i]] *)
Fixpoint index (i : nat) (s : string) : option ascii :=
  match s, i with
  | EmptyString, _ => None
  | String c _, O => Some c
  | String _ rest, S k => index k rest
  end.

(** [strings.HasPrefix(s, p)] *)
Fixpoint hasPrefix (p s : string) : bool :=
  match p, s with
  | EmptyString, _ => true
  | String _ _, EmptyString => false
  | String a p', String b s' => byte_eqb a b && hasPrefix p' s'
  end.

(** The byte classes of unicode/utf8: continuation range [lo..hi]. *)
Definition inRange (lo hi : N) (c : ascii) : bool :=
  (lo <=? N_of_ascii c)%N && (N_of_ascii c <=? hi)%N.

(** The number of bytes [utf8.DecodeRuneInString] consumes at the head of a
    non-empty string: the length of a well-formed sequence, 1 otherwise. *)
Definition runeLen (s : string) : nat :=
  match s with
  | EmptyString => 0
  | String c0 rest =>
      let b := N_of_ascii c0 in
      let follows (lo hi : N) (size : nat) : nat :=
        match rest with
        | String c1 rest1 =>
            if negb (inRange lo hi c1) then 1
            else match size with
                 | 2 => 2
                 | _ =>
                   match rest1 with
                   | String c2 rest2 =>
                       if negb (inRange 128 191 c2) then 1
                       else match size with
                            | 3 => 3
                            | _ =>
                              match rest2 with
                              | String c3 _ =>
                                  if inRange 128 191 c3 then 4 else 1
                              | EmptyString => 1
                              end
                            end
                   | EmptyString => 1
                   end
                 end
        | EmptyString => 1
        end in
      if (b <? 128)%N then 1
      else if (b <? 194)%N then 1
      else if (b <? 224)%N then follows 128%N 191%N 2
      else if (b =? 224)%N then follows 160%N 191%N 3
      else if (b =? 237)%N then follows 128%N 159%N 3
      else if (b <? 240)%N then follows 128%N 191%N 3
      else if (b =? 240)%N then follows 144%N 191%N 4
      else if (b <? 244)%N then follows 128%N 191%N 4
      else if (b =? 244)%N then follows 128%N 143%N 4
      else 1
  end.

(** [explode(s, -1)] of package strings: one string per UTF-8 sequence,
    invalid bytes sliced individually; the empty slice for the empty string.
    [skip] counts the bytes of the current sequence still to be taken. *)
Fixpoint explode_aux (skip : nat) (cur : string) (s : string) : list string :=
  match s with
  | EmptyString => match cur with EmptyString => [] | _ => [cur] end
  | String c rest =>
      match skip with
      | S k => explode_aux k (cur ++ String c EmptyString) rest
      | O =>
          (match cur with EmptyString => [] | _ => [cur] end
             ++ explode_aux (runeLen s - 1) (String c EmptyString) rest)%list
      end
  end.

Definition explode (s : string) : list string := explode_aux 0 EmptyString s.

(** [strings.Split(s, sep)] for a non-empty [sep]: cut at each occurrence of
    [sep], leftmost first, occurrences not overlapping.  [skip] counts the
    bytes of a matched separator still to be passed over, [cur] is the
    segment collected so far. *)
Fixpoint split_aux (sep : string) (skip : nat) (cur : string) (s : string)
  : list string :=
  match s with
  | EmptyString => [cur]
  | String c rest =>
      match skip with
      | S k => split_aux sep k cur rest
      | O =>
          if hasPrefix sep s
          then cur :: split_aux sep (len sep - 1) EmptyString rest
          else split_aux sep 0 (cur ++ String c EmptyString) rest
      end
  end.

(** [strings.Split(s, sep)]: genSplit(s, sep, 0, -1). *)
Definition Split (s sep : string) : list string :=
  match sep with
  | EmptyString => explode s
  | _ => split_aux sep 0 EmptyString s
  end.

(** [strings.Join(elems, sep)] *)
Fixpoint Join (elems : list string) (sep : string) : string :=
  match elems with
  | [] => EmptyString
  | [a] => a
  | a :: rest => a ++ sep ++ Join rest sep
  end.

(** [strings.ReplaceAll(s, old, new)] for a non-empty [old]. *)
Fixpoint replace_aux (old new : string) (skip : nat) (s : string) : string :=
  match s with
  | EmptyString => EmptyString
  | String c rest =>
      match skip with
      | S k => replace_aux old new k rest
      | O =>
          if hasPrefix old s
          then new ++ replace_aux old new (len old - 1) rest
          else String c (replace_aux old new 0 rest)
      end
  end.

(** [strings.ReplaceAll(s, old, new)]; an empty [old] matches before every
    UTF-8 sequence and at the end. *)
Definition ReplaceAll (s old new : string) : string :=
  match old with
  | EmptyString => new ++ String.concat EmptyString (map (fun r => r ++ new) (explode s))
  | _ => replace_aux old new 0 s
  end.

(** No byte of [s] is [c]. *)
Fixpoint lacks (c : ascii) (s : string) : Prop :=
  match s with
  | EmptyString => True
  | String d rest => d <> c /\ lacks c rest
  end.

End GoString.

(** ** utils: path helpers *)

Module Utils.
Import GoString.

Definition backslash : ascii := ascii_of_nat 92.
Definition slash : ascii := ascii_of_nat 47.
Definition colon : ascii := ascii_of_nat 58.

(** utils.ReplaceWindowsDriveWithLinuxPath *)
Definition ReplaceWindowsDriveWithLinuxPath (path : string) : string :=
  if (1 <? len path)%nat && match index 1 path with
                        | Some c => byte_eqb c colon
                        | None => false
                        end
  then drop 2 (ReplaceAll path (String backslash EmptyString) (String slash EmptyString))
  else ReplaceAll path (String backslash EmptyString) (String slash EmptyString).

(** [a[len(a)-1]]: out of range on the empty slice. *)
Definition lastElem (a : list string) : option string :=
  match a with
  | [] => None
  | _ => Some (last a EmptyString)
  end.

(** utils.CheckPathOverlap; [None] when an index is out of range (the Go
    runtime panics). *)
Definition CheckPathOverlap (pathA pathB sep : string) : option string :=
  let a := Split pathA sep in
  let b := Split pathB sep in
  match lastElem a, b with
  | Some la, b0 :: btl =>
      let b' := if String.eqb la b0 then btl else b in
      Some (Join (a ++ b')%list sep)
  | _, _ => None
  end.

End Utils.

(** ** Facts about Go byte strings *)

Module GoStringFacts.
Import GoString.

Lemma append_nil_r (s : string) : s ++ EmptyString = s.
Proof. induction s as [|c s IH]; simpl; [reflexivity | now rewrite IH]. Qed.

Lemma append_assoc (a b c : string) : (a ++ b) ++ c = a ++ (b ++ c).
Proof. induction a as [|x a IH]; simpl; [reflexivity | now rewrite IH]. Qed.

Lemma len_append (a b : string) : len (a ++ b) = len a + len b.
Proof. unfold len. induction a as [|x a IH]; simpl; [reflexivity | now rewrite IH]. Qed.

Lemma hasPrefix_split (p s : string) :
  hasPrefix p s = true -> exists t, s = p ++ t.
Proof.
  revert s. induction p as [|a p IH]; intros s H.
  - now exists s.
  - destruct s as [|b s]; simpl in H; [discriminate|].
    apply andb_true_iff in H as [Hab Hp].
    apply Ascii.eqb_eq in Hab. subst b.
    destruct (IH _ Hp) as [t ->]. now exists t.
Qed.

Lemma split_aux_skip (sep p t cur : string) :
  split_aux sep (len p) cur (p ++ t) = split_aux sep 0 cur t.
Proof. induction p as [|a p IH]; simpl; [reflexivity | exact IH]. Qed.

Lemma split_aux_not_nil (sep : string) (s : string) :
  forall skip cur, split_aux sep skip cur s <> [].
Proof.
  induction s as [|c s IH]; intros skip cur; simpl; [discriminate|].
  destruct skip; [|apply IH].
  destruct (hasPrefix sep (String c s)); [discriminate | apply IH].
Qed.

Lemma Join_cons (a : string) (l : list string) (sep : string) :
  l <> [] -> Join (a :: l) sep = a ++ sep ++ Join l sep.
Proof. destruct l; [congruence | reflexivity]. Qed.

Lemma Join_app (a b : list string) (sep : string) :
  a <> [] -> b <> [] ->
  Join (a ++ b)%list sep = Join a sep ++ sep ++ Join b sep.
Proof.
  intros Ha Hb. induction a as [|x a IH]; [congruence|].
  destruct a as [|y a].
  - simpl app. now rewrite Join_cons.
  - change ((x :: y :: a) ++ b)%list with (x :: ((y :: a) ++ b))%list.
    rewrite Join_cons by discriminate.
    rewrite IH by discriminate.
    rewrite (Join_cons x (y :: a)) by discriminate.
    now rewrite !append_assoc.
Qed.

(** Joining what [Split] cut gives the string back. *)
Lemma Join_split_aux (a : ascii) (sep' : string) :
  forall n s, len s <= n ->
  forall cur, Join (split_aux (String a sep') 0 cur s) (String a sep') = cur ++ s.
Proof.
  set (sep := String a sep').
  induction n as [|n IH]; intros s Hn cur.
  - destruct s; [simpl; now rewrite append_nil_r | simpl in Hn; lia].
  - destruct s as [|c rest]; [simpl; now rewrite append_nil_r|].
    cbn [split_aux].
    destruct (hasPrefix sep (String c rest)) eqn:Hp.
    + destruct (hasPrefix_split _ _ Hp) as [t Ht].
      unfold sep in Ht. simpl in Ht. injection Ht as -> ->.
      replace (len sep - 1) with (len sep') by (unfold sep, len; simpl; lia).
      rewrite split_aux_skip.
      rewrite Join_cons by apply split_aux_not_nil.
      rewrite IH.
      * reflexivity.
      * simpl in Hn. rewrite len_append in Hn. unfold len in *. simpl in Hn. lia.
    + rewrite IH by (unfold len in *; simpl in Hn; lia).
      now rewrite append_assoc.
Qed.

Lemma Join_Split (s sep : string) :
  sep <> EmptyString -> Join (Split s sep) sep = s.
Proof.
  intros Hsep. destruct sep as [|a sep']; [congruence|].
  unfold Split. now rewrite (Join_split_aux a sep' (len s) s (le_n _)).
Qed.

Lemma Split_not_nil (s sep : string) :
  sep <> EmptyString -> Split s sep <> [].
Proof.
  intros Hsep. destruct sep; [congruence|]. apply split_aux_not_nil.
Qed.

(** Replacing one byte by another leaves none of the first. *)
Lemma replace_byte_lacks (x y : ascii) (s : string) :
  x <> y ->
  lacks x (replace_aux (String x EmptyString) (String y EmptyString) 0 s).
Proof.
  intros Hxy. induction s as [|c s IH]; simpl; [exact I|].
  unfold byte_eqb. destruct (Ascii.eqb x c) eqn:E; simpl.
  - split; [congruence | exact IH].
  - split; [|exact IH]. apply Ascii.eqb_neq in E. congruence.
Qed.

Lemma replace_byte_cons (x y c : ascii) (s : string) :
  replace_aux (String x EmptyString) (String y EmptyString) 0 (String c s)
  = String (if Ascii.eqb x c then y else c)
      (replace_aux (String x EmptyString) (String y EmptyString) 0 s).
Proof. simpl. unfold byte_eqb. now destruct (Ascii.eqb x c). Qed.

Lemma lacks_drop (c : ascii) (n : nat) (s : string) :
  lacks c s -> lacks c (drop n s).
Proof.
  revert s. induction n as [|n IH]; intros s H; [exact H|].
  destruct s; [exact I|]. simpl. apply IH. now destruct H.
Qed.

End GoStringFacts.

Module UtilsFacts.
Import GoString GoStringFacts Utils.

Definition toSlash (path : string) : string :=
  ReplaceAll path (String backslash EmptyString) (String slash EmptyString).

(** C8. ReplaceWindowsDriveWithLinuxPath returns a path without backslash
    (every separator is a forward slash); a path whose second byte is ':'
    loses its two-byte drive prefix, the rest having its backslashes turned
    into slashes, so that C:\foo becomes /foo, and a drive path whose third
    byte is a separator starts with a slash; any other path only has its
    backslashes replaced. *)
Theorem ReplaceWindowsDriveWithLinuxPath_forward_slashes :
  forall path : string,
    lacks backslash (ReplaceWindowsDriveWithLinuxPath path)
    /\ (forall d rest, path = String d (String colon rest) ->
          ReplaceWindowsDriveWithLinuxPath path = toSlash rest)
    /\ (forall d s rest, path = String d (String colon (String s rest)) ->
          s = backslash \/ s = slash ->
          exists tl, ReplaceWindowsDriveWithLinuxPath path = String slash tl)
    /\ (index 1 path <> Some colon ->
          ReplaceWindowsDriveWithLinuxPath path = toSlash path)
    /\ ReplaceWindowsDriveWithLinuxPath
         (String "C" (String colon (String backslash "foo"))) = "/foo".
Proof.
  intros path.
  assert (Hne : backslash <> slash) by (unfold backslash, slash; simpl; discriminate).
  assert (Hdrive : forall d rest, path = String d (String colon rest) ->
            ReplaceWindowsDriveWithLinuxPath path = toSlash rest).
  { intros d rest ->. unfold ReplaceWindowsDriveWithLinuxPath, toSlash, ReplaceAll.
    cbn [len String.length Nat.ltb Nat.leb index andb].
    unfold byte_eqb. rewrite Ascii.eqb_refl.
    rewrite !replace_byte_cons. reflexivity. }
  split; [|split; [exact Hdrive | split; [|split]]].
  - unfold ReplaceWindowsDriveWithLinuxPath, ReplaceAll.
    destruct (_ && _); [apply lacks_drop|]; now apply replace_byte_lacks.
  - intros d s rest Hp Hs. rewrite (Hdrive _ _ Hp).
    unfold toSlash, ReplaceAll. rewrite replace_byte_cons.
    destruct Hs as [-> | ->].
    + rewrite Ascii.eqb_refl. eauto.
    + destruct (Ascii.eqb backslash slash); eauto.
  - intros Hidx. unfold ReplaceWindowsDriveWithLinuxPath, toSlash.
    destruct (index 1 path) as [c|] eqn:E.
    + unfold byte_eqb. destruct (Ascii.eqb c colon) eqn:Ec.
      * apply Ascii.eqb_eq in Ec. congruence.
      * now rewrite andb_false_r.
    + now rewrite andb_false_r.
  - reflexivity.
Qed.

(** C10 as stated fails: with an empty separator and empty paths
    [strings.Split] returns the empty slice and [a[len(a)-1]] is out of
    range, so CheckPathOverlap returns nothing. *)
Lemma CheckPathOverlap_empty_sep_panics :
  CheckPathOverlap EmptyString EmptyString EmptyString = None
  /\ ~ (exists r, CheckPathOverlap EmptyString EmptyString EmptyString = Some r).
Proof. split; [reflexivity | intros [r H]; discriminate H]. Qed.

(** C10 (amended). For a non-empty separator CheckPathOverlap returns the
    segments of pathA followed by those of pathB joined by sep, the first
    segment of pathB left out when it equals the last segment of pathA;
    when they differ the result is pathA ++ sep ++ pathB. *)
Theorem CheckPathOverlap_nonempty_sep :
  forall pathA pathB sep : string,
    sep <> EmptyString ->
    exists la b0 btl,
      lastElem (Split pathA sep) = Some la
      /\ Split pathB sep = b0 :: btl
      /\ (la = b0 ->
          CheckPathOverlap pathA pathB sep
          = Some (Join (Split pathA sep ++ btl)%list sep))
      /\ (la <> b0 ->
          CheckPathOverlap pathA pathB sep = Some (pathA ++ sep ++ pathB)).
Proof.
  intros pathA pathB sep Hsep.
  pose proof (Split_not_nil pathA sep Hsep) as Ha.
  pose proof (Split_not_nil pathB sep Hsep) as Hb.
  unfold CheckPathOverlap.
  destruct (Split pathB sep) as [|b0 btl] eqn:Eb; [congruence|].
  destruct (Split pathA sep) as [|a0 atl] eqn:Ea; [congruence|].
  exists (last (a0 :: atl) EmptyString), b0, btl.
  cbn [lastElem]. repeat split.
  - intros E. apply String.eqb_eq in E. now rewrite E.
  - intros E. apply String.eqb_neq in E. rewrite E.
    rewrite Join_app by discriminate.
    rewrite <- Ea, <- Eb, !Join_Split by assumption. reflexivity.
Qed.

Lemma CheckPathOverlap_nonempty_sep_witness :
  exists la b0 btl,
    lastElem (Split "a/b" "/") = Some la
    /\ Split "b/c" "/" = b0 :: btl
    /\ (la = b0 ->
        CheckPathOverlap "a/b" "b/c" "/"
        = Some (Join (Split "a/b" "/" ++ btl)%list "/"))
    /\ (la <> b0 -> CheckPathOverlap "a/b" "b/c" "/" = Some ("a/b" ++ "/" ++ "b/c")).
Proof. apply (CheckPathOverlap_nonempty_sep "a/b" "b/c" "/"). discriminate. Defined.

End UtilsFacts.

(** ** The YAML document tree (gopkg.in/yaml.v3)

    A [*yaml.Node] is a node or nil: [option Node]. *)

Module Yaml.

Inductive Kind := NoKind | DocumentNode | SequenceNode | MappingNode | ScalarNode | AliasNode.

Inductive Node : Type :=
  mkNode {
    NodeKind : Kind;
    NodeTag : string;
    NodeValue : string;
    NodeLine : Z;
    NodeColumn : Z;
    Content : list (option Node)
  }.

Definition withContent (n : Node) (c : list (option Node)) : Node :=
  mkNode (NodeKind n) (NodeTag n) (NodeValue n) (NodeLine n) (NodeColumn n) c.

End Yaml.

(** ** Panics

    A Go function that may panic returns a [result]. *)

Module Go.

Inductive result (A : Type) : Type :=
| Ok (a : A)
| Panic (msg : string).
Arguments Ok {A} a.
Arguments Panic {A} msg.

Definition bind {A B : Type} (r : result A) (k : A -> result B) : result B :=
  match r with
  | Ok a => k a
  | Panic msg => Panic msg
  end.

(** Run [f] over a list, left to right, stopping at the first panic. *)
Definition mapM {A B : Type} (f : A -> result B) : list A -> result (list B) :=
  fix go (l : list A) : result (list B) :=
    match l with
    | [] => Ok []
    | a :: rest => bind (f a) (fun b => bind (go rest) (fun bs => Ok (b :: bs)))
    end.

(** A loop threading a state through a list, stopping at the first panic. *)
Definition foldM {A S : Type} (f : S -> A -> result S) : list A -> S -> result S :=
  fix go (l : list A) (s : S) : result S :=
    match l with
    | [] => Ok s
    | a :: rest => bind (f s a) (go rest)
    end.

End Go.

Notation "x <- c1 ;; c2" := (Go.bind c1 (fun x => c2))
  (at level 61, c1 at next level, right associativity).

(** ** sort.Slice

    [sort.Slice(x, less)] sorts in place; its documentation promises a sorted
    permutation and states that the sort is not guaranteed to be stable.
    The builder only ever compares an integer key (the entry's line). *)

Module Sort.

Record SliceSorter : Type := {
  sortSlice : forall A : Type, (A -> A -> bool) -> list A -> list A;
  sortSlice_perm :
    forall (A : Type) (less : A -> A -> bool) (l : list A),
      Permutation l (sortSlice A less l);
  sortSlice_sorted :
    forall (A : Type) (key : A -> Z) (l : list A),
      StronglySorted (fun a b => (key a <= key b)%Z)
        (sortSlice A (fun a b => (key a <? key b)%Z) l)
}.

(** insertionSort_func of package sort: each element moves left while it is
    less than its predecessor.  [insertLeft x r] works on the reversed
    prefix [r], whose head is the element just before [x]. *)
Fixpoint insertLeft {A : Type} (less : A -> A -> bool) (x : A) (r : list A) : list A :=
  match r with
  | [] => [x]
  | y :: r' => if less x y then y :: insertLeft less x r' else x :: r
  end.

Definition insertionSort {A : Type} (less : A -> A -> bool) (l : list A) : list A :=
  rev (fold_left (fun r x => insertLeft less x r) l []).

End Sort.

(** ** datamodel/high/node_builder.go *)

Module High.
Import GoString Yaml Go Sort.

(** What a pointer points to, as far as rendering goes: a [Renderable]
    (with what its MarshalYAML returns, nil being [None]) or anything else. *)
Inductive Pointee :=
| PRenderable (rawRender : option Node)
| PPlain.

(** The values a field of a high object or an extension may hold ([any]),
    by [reflect.Kind]. *)
Inductive GoValue : Type :=
| VNil                                     (* the nil interface *)
| VInt (i : Z)                             (* Int, Int8, Int16, Int32, Int64 *)
| VString (s : string)
| VBool (b : bool)
| VSlice (elems : option (list GoValue))   (* [None]: the nil slice *)
| VPtr (isNil : bool) (target : Pointee)
| VMap (entries : option (list (string * GoValue)))
                                           (* keys in MapKeys() order; [None]: the nil map *)
| VStruct (zero : bool) (valueRef : option (option Node))
                                           (* [Some vn]: a low.ValueReference[any] with value node vn *)
| VNilable (isNil : bool)                  (* Chan, Func, UnsafePointer *)
| VNumber (zero : bool).                   (* Uint*, Float*, Complex*, Array *)

(** [f == nil || reflect.ValueOf(f).IsZero()] *)
Definition isZeroValue (v : GoValue) : bool :=
  match v with
  | VNil => true
  | VInt i => (i =? 0)%Z
  | VString s => String.eqb s EmptyString
  | VBool b => negb b
  | VSlice None => true
  | VSlice (Some _) => false
  | VPtr isNil _ => isNil
  | VMap None => true
  | VMap (Some _) => false
  | VStruct zero _ => zero
  | VNilable isNil => isNil
  | VNumber zero => zero
  end.

(** A field of the high struct: its name, its yaml struct tag, its value. *)
Record Field := mkField {
  Name : string;
  YamlTag : string;
  FieldValue : GoValue
}.

Definition HighObject := list Field.

(** A field of the low struct, by what the builder asks of it. *)
Inductive LowField :=
| LRef (valueNode : option Node) (mapKeys : option (list (string * Z)))
    (* a low.NodeReference or ValueReference: its ValueNode, and, when its
       value is a map keyed by key references, each key node's Value and Line *)
| LStruct                                  (* any other struct *)
| LMap (keys : list (string * Z))          (* a map keyed by key references *)
| LNilInterface
| LOther.

Record LowObject := mkLow {
  lowFields : list (string * LowField);
  (* GetExtensions() of low.HasExtensionsUntyped, in range order: each key's
     Value with the ValueNode of its entry; [None] when not implemented *)
  lowExtensions : option (list (string * option Node))
}.

(** The [low any] argument. *)
Inductive LowArg :=
| LowUntypedNil
| LowNilPtr
| LowPtr (o : LowObject).

(** NodeEntry *)
Record NodeEntry := mkEntry {
  Tag : string;
  Key : string;
  Value : GoValue;
  Line : Z
}.

(** NodeBuilder *)
Record NodeBuilder := mkBuilder {
  Nodes : list NodeEntry;
  High : HighObject;
  Low : LowArg
}.

Definition FieldByName (h : HighObject) (key : string) : option Field :=
  find (fun f => String.eqb (Name f) key) h.

Definition lowFieldByName (o : LowObject) (key : string) : option LowField :=
  option_map snd (find (fun kv => String.eqb (fst kv) key) (lowFields o)).

(** [reflect.ValueOf(n.Low).IsZero()]: panics on the zero Value. *)
Definition lowIsZero (l : LowArg) : result bool :=
  match l with
  | LowUntypedNil => Panic "reflect: call of reflect.Value.IsZero on zero Value"
  | LowNilPtr => Ok true
  | LowPtr _ => Ok false
  end.

(** [unicode.IsLower(rune(b))] for a byte [b] (the Latin-1 range). *)
Definition IsLower (b : ascii) : bool :=
  let n := N_of_ascii b in
  ((97 <=? n) && (n <=? 122) || (n =? 181) || (223 <=? n) && (n <=? 246)
   || (248 <=? n) && (n <=? 255))%N.

(** [strconv.FormatInt(i, 10)] *)
Definition FormatInt (i : Z) : string := NilZero.string_of_int (Z.to_int i).

(** [reflect.Value.String()] of a slice element. *)
Definition valueString (v : GoValue) : string :=
  match v with
  | VString s => s
  | _ => "<Value>"
  end.

Definition sentinelLine : Z := 9999.

Section Builder.

(** v3.TypeLabel *)
Variable TypeLabel : string.
(** [yaml.Node.Encode]: [None] on error. *)
Variable Encode : GoValue -> option Node.
(** The runtime's sort.Slice. *)
Variable sorter : SliceSorter.

(** The line an extension key had in the low object: the last matching key
    of the range wins; a matching entry without value node is a nil
    dereference. *)
Fixpoint extensionLine (extKey : string) (orig : list (string * option Node)) (line : Z)
  : result Z :=
  match orig with
  | [] => Ok line
  | (k, vn) :: rest =>
      if String.eqb k extKey
      then match vn with
           | Some nd => extensionLine extKey rest (NodeLine nd)
           | None => Panic "nil pointer dereference"
           end
      else extensionLine extKey rest line
  end.

(** The body of the loop over [extensions.MapKeys()] in [add]. *)
Definition addExtension (n : NodeBuilder) (ext : string * GoValue) : result NodeBuilder :=
  let '(extKey, extValue) := ext in
  zero <- lowIsZero (Low n) ;;
  line <-
    (if zero then Ok 0%Z
     else match Low n with
          | LowPtr o =>
              match lowFieldByName o "Extensions" with
              | Some (LMap _) =>
                  match lowExtensions o with
                  | Some orig => extensionLine extKey orig 0%Z
                  | None => Ok 0%Z
                  end
              | Some _ => Panic "not supported yet"
              | None => Panic "reflect: call of reflect.Value.Interface on zero Value"
              end
          | _ => Ok 0%Z
          end) ;;
  Ok (mkBuilder (Nodes n ++ [mkEntry extKey extKey extValue line])%list (High n) (Low n)).

(** The value an entry gets from a non-zero field (nil: [VNil]). *)
Definition entryValue (tagName : string) (f : GoValue) : GoValue :=
  match f with
  | VInt i => VString (FormatInt i)
  | VString s => VString s
  | VBool b => VBool b
  | VSlice elems =>
      if String.eqb tagName TypeLabel
      then match elems with
           | Some [e] => VString (valueString e)
           | _ => VNil
           end
      else match elems with Some _ => f | None => VNil end
  | VPtr isNil _ => if isNil then VNil else f
  | VMap entries => match entries with Some _ => f | None => VNil end
  | _ => f
  end.

(** The line an entry gets from the low object. *)
Definition entryLine (low : LowArg) (key : string) : result Z :=
  zero <- lowIsZero low ;;
  if zero then Ok 0%Z
  else match low with
       | LowPtr o =>
           match lowFieldByName o key with
           | None => Panic "reflect: call of reflect.Value.Interface on zero Value"
           | Some (LRef (Some nb) _) => Ok (NodeLine nb)
           | Some (LRef None _) => Ok 0%Z
           | Some LStruct => Panic "interface conversion: not low.HasValueNodeUntyped"
           | Some _ => Ok sentinelLine
           end
       | _ => Ok 0%Z
       end.

(** NodeBuilder.add *)
Definition add (n : NodeBuilder) (key : string) : result NodeBuilder :=
  match key with
  | EmptyString => Panic "index out of range"
  | String k0 _ =>
      if IsLower k0 then Ok n
      else if String.eqb key "Extensions" then
        match FieldByName (High n) key with
        | Some (mkField _ _ (VMap entries)) =>
            foldM addExtension (match entries with Some l => l | None => [] end) n
        | _ => Panic "reflect: call of reflect.Value.MapKeys on non-map Value"
        end
      else
        match FieldByName (High n) key with
        | None => Panic "reflect: call of reflect.Value.Interface on zero Value"
        | Some field =>
            let tag := YamlTag field in
            let tagName := hd EmptyString (Split tag ",") in
            if String.eqb tag "-" then Ok n
            else
              let f := FieldValue field in
              if isZeroValue f then Ok n
              else
                line <- entryLine (Low n) key ;;
                let nodeEntry := mkEntry tagName key (entryValue tagName f) line in
                match Value nodeEntry with
                | VNil => Ok n
                | _ => Ok (mkBuilder (Nodes n ++ [nodeEntry])%list (High n) (Low n))
                end
        end
  end.

(** NewNodeBuilder *)
Definition NewNodeBuilder (high : HighObject) (low : LowArg) : result NodeBuilder :=
  foldM add (map Name high) (mkBuilder [] high low).

Definition CreateEmptyMapNode : Node := mkNode MappingNode "!!map" EmptyString 0 0 [].
Definition CreateStringNode (str : string) : Node := mkNode ScalarNode "!!str" str 0 0 [].
Definition CreateBoolNode (str : string) : Node := mkNode ScalarNode "!!bool" str 0 0 [].

(** What AddYAMLNode computes before touching the parent: nothing to add
    (it returns the parent as it is), or the value node to attach. *)
Inductive Emission :=
| Skip
| Emit (valueNode : option Node).

(** The end of AddYAMLNode. *)
Definition attach (parent : Node) (tag : string) (e : Emission) : result Node :=
  match e with
  | Skip => Ok parent
  | Emit valueNode =>
      if String.eqb tag EmptyString
      then match valueNode with
           | Some vn => Ok (withContent parent (Content vn))
           | None => Panic "nil pointer dereference"
           end
      else Ok (withContent parent
                 (Content parent ++ [Some (CreateStringNode tag); valueNode])%list)
  end.

(** The lines under which a key [x] of a map value is collected: one entry
    per low key of that name, or one at the sentinel when the low side has
    nothing to say. *)
Definition mapKeyLines (low : LowArg) (key x : string) : result (list Z) :=
  let matching (keys : list (string * Z)) :=
    map snd (filter (fun kl => String.eqb (fst kl) x) keys) in
  zero <- lowIsZero low ;;
  if zero then Ok [sentinelLine]
  else match low with
       | LowPtr o =>
           match lowFieldByName o key with
           | None => Ok [sentinelLine]
           | Some LNilInterface => Ok [sentinelLine]
           | Some (LRef _ (Some keys)) => Ok (matching keys)
           | Some (LMap keys) => Ok (matching keys)
           | Some _ => Panic "reflect: call of reflect.Value.MapKeys on non-map Value"
           end
       | _ => Ok [sentinelLine]
       end.

(** The switch of AddYAMLNode over the kind of [value]. *)
Fixpoint valueNodeOf (low : LowArg) (key : string) (value : GoValue) {struct value}
  : result Emission :=
  match value with
  | VNil => Ok Skip
  | VString val =>
      if String.eqb val EmptyString then Ok Skip
      else Ok (Emit (Some (CreateStringNode val)))
  | VBool val =>
      if val then Ok (Emit (Some (CreateBoolNode "true"))) else Ok Skip
  | VMap entries =>
      (* each key with its value and what the recursive call on it gives *)
      let keyed :=
        match entries with
        | Some l => map (fun kv : string * GoValue =>
                           let (x, v) := kv in (x, v, valueNodeOf low x v)) l
        | None => []
        end in
      collected <-
        mapM (fun kve : string * GoValue * result Emission =>
                let '(x, v, e) := kve in
                lines <- mapKeyLines low key x ;;
                Ok (map (fun ln => (mkEntry x x v ln, e)) lines))
             keyed ;;
      let orderedCollection :=
        sortSlice sorter _
          (fun a b => (Line (fst a) <? Line (fst b))%Z) (List.concat collected) in
      p <- foldM (fun p cv => e <- snd cv ;; attach p (Tag (fst cv)) e)
             orderedCollection CreateEmptyMapNode ;;
      Ok (Emit (Some p))
  | VSlice None => Ok Skip
  | VSlice (Some _) =>
      match Encode value with
      | Some rawNode => Ok (Emit (Some rawNode))
      | None => Ok Skip
      end
  | VStruct _ (Some vn) => Ok (Emit vn)
  | VStruct _ None => Panic "not supported yet"
  | VPtr _ (PRenderable (Some rawRender)) => Ok (Emit (Some rawRender))
  | VPtr _ (PRenderable None) => Ok Skip
  | VPtr _ PPlain =>
      match Encode value with
      | Some rawNode => Ok (Emit (Some rawNode))
      | None => Ok Skip
      end
  | VNilable true => Ok Skip
  | VNilable false =>
      match Encode value with
      | Some rawNode => Ok (Emit (Some rawNode))
      | None => Ok Skip
      end
  | VInt _ | VNumber _ => Panic "reflect: call of reflect.Value.IsNil on non-nilable Value"
  end.

(** NodeBuilder.AddYAMLNode *)
Definition AddYAMLNode (n : NodeBuilder) (parent : Node) (tag key : string) (value : GoValue)
  : result Node :=
  e <- valueNodeOf (Low n) key value ;;
  attach parent tag e.

(** The entries in the order Render visits them. *)
Definition sortedNodes (n : NodeBuilder) : list NodeEntry :=
  sortSlice sorter _ (fun a b => (Line a <? Line b)%Z) (Nodes n).

(** NodeBuilder.Render *)
Definition Render (n : NodeBuilder) : result Node :=
  foldM (fun m node => AddYAMLNode n m (Tag node) (Key node) (Value node))
    (sortedNodes n) CreateEmptyMapNode.

(** The key scalars of a rendered mapping, in order. *)
Fixpoint mappingKeys (content : list (option Node)) : list string :=
  match content with
  | Some k :: _ :: rest => NodeValue k :: mappingKeys rest
  | _ => []
  end.

End Builder.

End High.

(** ** Insertion sort meets the contract of sort.Slice *)

Module SortFacts.
Import Sort.

Section Insertion.
Context {A : Type}.

Lemma insertLeft_perm (less : A -> A -> bool) (x : A) (r : list A) :
  Permutation (x :: r) (insertLeft less x r).
Proof.
  induction r as [|y r IH]; simpl; [reflexivity|].
  destruct (less x y); [|reflexivity].
  rewrite perm_swap. now constructor.
Qed.

Lemma fold_insertLeft_perm (less : A -> A -> bool) (l : list A) :
  forall acc, Permutation (l ++ acc) (fold_left (fun r x => insertLeft less x r) l acc).
Proof.
  induction l as [|x l IH]; intros acc; simpl; [reflexivity|].
  rewrite <- IH. rewrite <- insertLeft_perm. apply Permutation_middle.
Qed.

Lemma insertionSort_perm (less : A -> A -> bool) (l : list A) :
  Permutation l (insertionSort less l).
Proof.
  unfold insertionSort. rewrite <- Permutation_rev.
  rewrite <- fold_insertLeft_perm. now rewrite app_nil_r.
Qed.

Variable key : A -> Z.
Let lessKey (a b : A) : bool := (key a <? key b)%Z.
Let descending : list A -> Prop := StronglySorted (fun a b => (key b <= key a)%Z).

Lemma insertLeft_descending (x : A) (r : list A) :
  descending r -> descending (insertLeft lessKey x r).
Proof.
  unfold descending, lessKey.
  induction r as [|y r IH]; intros H; simpl.
  - repeat constructor.
  - apply StronglySorted_inv in H as [Hr Hy].
    destruct (key x <? key y)%Z eqn:E.
    + apply Z.ltb_lt in E. constructor; [now apply IH|].
      eapply Permutation_Forall; [apply insertLeft_perm|].
      constructor; [lia | exact Hy].
    + apply Z.ltb_ge in E. constructor.
      * now constructor.
      * constructor; [exact E|].
        eapply Forall_impl; [|exact Hy]. simpl. intros; lia.
Qed.

Lemma fold_insertLeft_descending (l : list A) :
  forall acc, descending acc ->
    descending (fold_left (fun r x => insertLeft lessKey x r) l acc).
Proof.
  induction l as [|x l IH]; intros acc H; simpl; [exact H|].
  apply IH. now apply insertLeft_descending.
Qed.

Lemma StronglySorted_snoc (R : A -> A -> Prop) (l : list A) (a : A) :
  StronglySorted R l -> Forall (fun b => R b a) l -> StronglySorted R (l ++ [a]).
Proof.
  induction l as [|b l IH]; intros Hs Hf; simpl.
  - repeat constructor.
  - apply StronglySorted_inv in Hs as [Hs Hb]. inversion Hf; subst.
    constructor; [now apply IH|].
    apply Forall_app. split; [exact Hb | now constructor].
Qed.

Lemma descending_rev (l : list A) :
  descending l -> StronglySorted (fun a b => (key a <= key b)%Z) (rev l).
Proof.
  unfold descending. induction l as [|a l IH]; intros H; simpl; [constructor|].
  apply StronglySorted_inv in H as [Hl Ha].
  apply StronglySorted_snoc; [now apply IH|].
  apply Forall_rev. exact Ha.
Qed.

Lemma insertionSort_sorted (l : list A) :
  StronglySorted (fun a b => (key a <= key b)%Z)
    (insertionSort (fun a b => (key a <? key b)%Z) l).
Proof.
  unfold insertionSort. apply descending_rev.
  apply (fold_insertLeft_descending l []). constructor.
Qed.

End Insertion.

(** Insertion sort: what sort.Slice runs on a short slice. *)
Definition insertionSorter : SliceSorter :=
  {| sortSlice := fun A less l => insertionSort less l;
     sortSlice_perm := fun A less l => insertionSort_perm less l;
     sortSlice_sorted := fun A key l => insertionSort_sorted key l |}.

Lemma reversed_perm {A : Type} (less : A -> A -> bool) (l : list A) :
  Permutation l (insertionSort less (rev l)).
Proof. rewrite <- insertionSort_perm. apply Permutation_rev. Qed.

(** Another sort within the contract: it visits the slice backwards, so
    equal elements come out in reverse. *)
Definition reversingSorter : SliceSorter :=
  {| sortSlice := fun A less l => insertionSort less (rev l);
     sortSlice_perm := fun A less l => reversed_perm less l;
     sortSlice_sorted := fun A key l => insertionSort_sorted key (rev l) |}.

(** In a sorted slice an element with a smaller key is never after one
    with a larger key. *)
Lemma sorted_order {A : Type} (key : A -> Z) (l1 l2 l3 : list A) (a b : A) :
  StronglySorted (fun a b => (key a <= key b)%Z) (l1 ++ a :: l2 ++ b :: l3) ->
  (key a <= key b)%Z.
Proof.
  induction l1 as [|x l1 IH]; simpl; intros H.
  - apply StronglySorted_inv in H as [_ H].
    rewrite Forall_forall in H. apply H. apply in_or_app. right. now left.
  - apply StronglySorted_inv in H as [H _]. now apply IH.
Qed.

End SortFacts.

(** ** The node builder: what is enumerated, and where it is rendered *)

Module HighFacts.
Import GoString Yaml Go Sort SortFacts High.

Section BuilderFacts.

Variable TypeLabel : string.
Variable Encode : GoValue -> option Node.
Variable sorter : SliceSorter.

Lemma foldM_app {A S : Type} (f : S -> A -> result S) (l1 l2 : list A) (s : S) :
  foldM f (l1 ++ l2)%list s = (s' <- foldM f l1 s ;; foldM f l2 s').
Proof.
  revert s. induction l1 as [|a l1 IH]; intros s; simpl; [reflexivity|].
  destruct (f s a); simpl; [apply IH | reflexivity].
Qed.

Lemma addExtension_frame (n n' : NodeBuilder) (ext : string * GoValue) :
  addExtension n ext = Ok n' -> High n' = High n /\ Low n' = Low n.
Proof.
  unfold addExtension. destruct ext as [extKey extValue].
  destruct (lowIsZero (Low n)) as [zero|]; simpl; [|discriminate].
  match goal with |- (line <- ?c ;; _) = _ -> _ => destruct c end; simpl;
    [|discriminate].
  intros H. injection H as <-. now split.
Qed.

Lemma foldM_frame {A : Type} (f : NodeBuilder -> A -> result NodeBuilder) (l : list A) :
  (forall n n' a, f n a = Ok n' -> High n' = High n /\ Low n' = Low n) ->
  forall n n', foldM f l n = Ok n' -> High n' = High n /\ Low n' = Low n.
Proof.
  intros Hf. induction l as [|a l IH]; intros n n' H; simpl in H.
  - injection H as <-. now split.
  - destruct (f n a) as [n1|] eqn:E; simpl in H; [|discriminate].
    destruct (Hf _ _ _ E) as [<- <-]. now apply IH.
Qed.

(** [add] never touches the two objects of the builder. *)
Lemma add_frame (n n' : NodeBuilder) (key : string) :
  add TypeLabel n key = Ok n' -> High n' = High n /\ Low n' = Low n.
Proof.
  unfold add. destruct key as [|k0 key']; [discriminate|].
  destruct (IsLower k0); [intros H; injection H as <-; now split|].
  destruct (String.eqb _ "Extensions").
  - destruct (FieldByName _ _) as [[nm tg v]|]; [|discriminate].
    destruct v; try discriminate.
    apply foldM_frame. apply addExtension_frame.
  - destruct (FieldByName _ _) as [field|]; [|discriminate].
    destruct (String.eqb _ "-"); [intros H; injection H as <-; now split|].
    destruct (isZeroValue _); [intros H; injection H as <-; now split|].
    destruct (entryLine _ _) as [line|]; simpl; [|discriminate].
    destruct (entryValue _ _); intros H; injection H as <-; now split.
Qed.


Lemma FieldByName_In (high : HighObject) (field : Field) :
  In field high -> NoDup (map Name high) ->
  FieldByName high (Name field) = Some field.
Proof.
  unfold FieldByName. induction high as [|f high IH]; intros Hin Hnd; [contradiction|].
  simpl in *. inversion Hnd as [|? ? Hnotin Hnd']; subst.
  destruct Hin as [-> | Hin].
  - now rewrite String.eqb_refl.
  - destruct (String.eqb (Name f) (Name field)) eqn:E; [|now apply IH].
    apply String.eqb_eq in E. exfalso. apply Hnotin. rewrite E.
    now apply in_map.
Qed.



(** What an entry contributes to the rendered mapping. *)
Definition emits (low : LowArg) (e : NodeEntry) : bool :=
  match valueNodeOf Encode sorter low (Key e) (Value e) with
  | Ok (Emit _) => true
  | _ => false
  end.

Definition emittedPair (low : LowArg) (e : NodeEntry) : list (option Node) :=
  match valueNodeOf Encode sorter low (Key e) (Value e) with
  | Ok (Emit valueNode) => [Some (CreateStringNode (Tag e)); valueNode]
  | _ => []
  end.

Lemma foldM_AddYAMLNode_content (n : NodeBuilder) (entries : list NodeEntry) :
  (forall e, In e entries -> Tag e <> EmptyString) ->
  forall m m',
    foldM (fun m node => AddYAMLNode Encode sorter n m (Tag node) (Key node) (Value node))
      entries m = Ok m' ->
    Content m' = (Content m ++ flat_map (emittedPair (Low n)) entries)%list.
Proof.
  induction entries as [|e entries IH]; intros Htags m m' H.
  - simpl in H. injection H as <-. simpl. now rewrite app_nil_r.
  - cbn [foldM] in H. cbn [flat_map].
    unfold AddYAMLNode at 1 in H. unfold emittedPair at 1.
    assert (Ht : String.eqb (Tag e) EmptyString = false).
    { apply String.eqb_neq. apply Htags. now left. }
    destruct (valueNodeOf _ _ _ _ _) as [[|valueNode]|msg]; simpl in H.
    + apply IH in H; [exact H | intros; apply Htags; now right].
    + rewrite Ht in H. simpl in H.
      apply IH in H; [|intros; apply Htags; now right].
      rewrite H. simpl. now rewrite <- app_assoc.
    + discriminate.
Qed.

Lemma mappingKeys_emitted (low : LowArg) (entries : list NodeEntry) :
  mappingKeys (flat_map (emittedPair low) entries)
  = map Tag (filter (emits low) entries).
Proof.
  induction entries as [|e entries IH]; [reflexivity|].
  cbn [flat_map filter]. unfold emittedPair at 1, emits at 1.
  destruct (valueNodeOf _ _ _ _ _) as [[|valueNode]|msg]; simpl; try exact IH.
  now rewrite IH.
Qed.


Definition exported (key : string) : Prop :=
  match key with
  | String k0 _ => IsLower k0 = false
  | EmptyString => False
  end.



End BuilderFacts.

(** *** A title read from line 2 and a description added afterwards *)

Definition scalarAt (line : Z) (value : string) : Node :=
  mkNode ScalarNode "!!str" value line 1 [].

Definition editedInfo : HighObject :=
  [mkField "Title" "title,omitempty" (VString "t");
   mkField "Description" "description,omitempty" (VString "d");
   mkField "Deprecated" "deprecated,omitempty" (VBool false)].

Definition parsedInfo : LowArg :=
  LowPtr (mkLow [("Title", LRef (Some (scalarAt 2 "t")) None);
                 ("Description", LRef None None);
                 ("Deprecated", LRef None None)]
            None).

Definition titleEntry : NodeEntry := mkEntry "title" "Title" (VString "t") 2.
Definition descriptionEntry (line : Z) : NodeEntry :=
  mkEntry "description" "Description" (VString "d") line.

Definition noEncode (v : GoValue) : option Node := None.





(** *** Two sorts within the contract of sort.Slice *)

Definition freshInfo : HighObject :=
  [mkField "Title" "title,omitempty" (VString "t");
   mkField "Description" "description,omitempty" (VString "d")].

(** C4. The order Render gives to entries of equal line is the one the
    runtime's sort.Slice leaves them in, which its contract does not fix:
    on an object without low counterpart, whose two entries both have
    line 0, insertion sort keeps the declaration order and a sort that
    visits the slice backwards, sorted just as well, swaps the two keys. *)
Lemma Render_tie_order_depends_on_sorter :
  NewNodeBuilder "type" freshInfo LowNilPtr
  = Ok (mkBuilder [mkEntry "title" "Title" (VString "t") 0; descriptionEntry 0]
          freshInfo LowNilPtr)
  /\ (exists m,
        Render noEncode insertionSorter
          (mkBuilder [mkEntry "title" "Title" (VString "t") 0; descriptionEntry 0]
             freshInfo LowNilPtr) = Ok m
        /\ mappingKeys (Content m) = ["title"; "description"])
  /\ (exists m,
        Render noEncode reversingSorter
          (mkBuilder [mkEntry "title" "Title" (VString "t") 0; descriptionEntry 0]
             freshInfo LowNilPtr) = Ok m
        /\ mappingKeys (Content m) = ["description"; "title"]).
Proof.
  split; [reflexivity | split; eexists; split; reflexivity].
Qed.

End HighFacts.

(** ** datamodel/low: node references, errors *)

Module Low.
Import Yaml.

(** Go's [error] values: [errors.New] and what [errors.Join] wraps. *)
Inductive error :=
| errorString (s : string)
| joinError (errs : list error).

(** [errors.New] *)
Definition New (s : string) : error := errorString s.

(** [errors.Join(errs...)] on non-nil errors: nil when there is none. *)
Definition Join (errs : list error) : option error :=
  match errs with
  | [] => None
  | _ => Some (joinError errs)
  end.

(** low.NodeReference[T] *)
Record NodeReference (A : Type) := mkNodeRef {
  Value : A;
  KeyNode : option Node;
  ValueNode : option Node
}.
Arguments mkNodeRef {A}.
Arguments Value {A}.
Arguments KeyNode {A}.
Arguments ValueNode {A}.

(** low.ValueReference[T] *)
Record ValueReference (A : Type) := mkValueRef {
  RefValue : A;
  RefValueNode : option Node
}.
Arguments mkValueRef {A}.
Arguments RefValue {A}.
Arguments RefValueNode {A}.

(** The zero reference: what a field of a fresh Document holds. *)
Definition zeroRef {A : Type} (zero : A) : NodeReference A := mkNodeRef zero None None.

(** datamodel.SpecInfo, as far as the low model reads it. *)
Record SpecInfo := mkSpecInfo {
  RootNode : Node;
  SpecVersion : string
}.

(** [info.RootNode.Content[0]]: an index out of range on an empty document,
    a nil dereference further on when the child is nil. *)
Definition rootOf (info : SpecInfo) : Go.result Node :=
  match Content (RootNode info) with
  | [] => Go.Panic "index out of range"
  | None :: _ => Go.Panic "nil pointer dereference"
  | Some root :: _ => Go.Ok root
  end.

End Low.

(** ** datamodel/low/v3/create_document.go *)

Module LowV3.
Import Yaml Go Low.

(** The functions of [extractionFuncs]. *)
Inductive ExtractionFunc :=
| extractInfoFn | extractServersFn | extractTagsFn | extractComponentsFn
| extractSecurityFn | extractExternalDocsFn | extractPathsFn | extractWebhooksFn.

Definition extractionFuncs : list ExtractionFunc :=
  [extractInfoFn; extractServersFn; extractTagsFn; extractComponentsFn;
   extractSecurityFn; extractExternalDocsFn; extractPathsFn; extractWebhooksFn].

(** The objects built by packages base, v3 and index, and the file systems:
    their code is not part of this development. *)
Class Types := {
  InfoObj : Type;
  ServerObj : Type;
  TagObj : Type;
  ComponentsObj : Type;
  SecurityObj : Type;
  ExternalDocObj : Type;
  PathsObj : Type;
  WebhooksMap : Type;
  ExtensionsMap : Type;
  SpecIndex : Type;
  FS : Type;
  Logger : Type;
  Handler : Type
}.

Section CreateDocument.

Context {T : Types}.

(** datamodel.DocumentConfiguration *)
Record DocumentConfiguration := mkConfig {
  BaseURL : option string;
  RemoteURLHandler : option Handler;
  BasePath : string;
  FileFilter : list string;
  RemoteFS : option FS;
  LocalFS : option FS;
  IgnorePolymorphicCircularReferences : bool;
  IgnoreArrayCircularReferences : bool;
  SkipCircularReferenceCheck : bool;
  ConfigLogger : option Logger
}.

(** index.SpecIndexConfig *)
Record SpecIndexConfig := mkIndexConfig {
  IdxBaseURL : option string;
  IdxBasePath : string;
  AllowRemoteLookup : bool;
  AllowFileLookup : bool;
  AvoidCircularReferenceCheck : bool;
  IdxIgnorePolymorphic : bool;
  IdxIgnoreArray : bool;
  IdxLogger : option Logger;
  IdxSpecInfo : option SpecInfo
}.

(** index.CreateClosedAPIIndexConfig *)
Definition CreateClosedAPIIndexConfig : SpecIndexConfig :=
  mkIndexConfig None EmptyString false false false false false None None.

(** index.Rolodex: the configuration it shares with its maker, the file
    systems added to it, and which of its passes have run. *)
Record Rolodex := mkRolodex {
  indexConfig : SpecIndexConfig;
  rolodexRoot : option Node;
  localFS : list (string * FS);
  remoteFS : list (string * FS);
  indexed : bool;
  circularChecked : bool
}.

(** index.LocalFSConfig *)
Record LocalFSConfig := mkLocalFSConfig {
  BaseDirectory : string;
  FileFilters : list string
}.

(** What createDocument and the extraction functions call in packages
    utils, low, base, index and path/filepath. *)
Class Externals := {
  (* labels: v3.OpenAPILabel, ... *)
  OpenAPILabel : string;
  JSONSchemaDialectLabel : string;
  ServersLabel : string;
  TagsLabel : string;
  InfoLabel : string;
  ComponentsLabel : string;
  PathsLabel : string;
  (* utils.FindKeyNodeFull and FindKeyNodeFullTop: key node, label node and
     value node, each possibly nil *)
  FindKeyNodeFull :
    string -> list (option Node) -> option Node * option Node * option Node;
  FindKeyNodeFullTop :
    string -> list (option Node) -> option Node * option Node * option Node;
  (* utils.IsNodeArray, utils.IsNodeMap *)
  IsNodeArray : option Node -> bool;
  IsNodeMap : option Node -> bool;
  (* low.BuildModel followed by the object's Build, with the error where
     the caller looks at it *)
  buildInfo : option Node -> Node -> option SpecIndex -> InfoObj;
  buildServer : option Node -> option Node -> option SpecIndex -> ServerObj;
  buildTag : option Node -> option Node -> option SpecIndex -> TagObj * option error;
  buildComponents : Node -> option SpecIndex -> ComponentsObj * option error;
  buildPaths : option Node -> Node -> option SpecIndex -> PathsObj * option error;
  (* low.ExtractArray, ExtractObject, ExtractMap at the types used here *)
  ExtractArraySecurity :
    Node -> option SpecIndex ->
    list (ValueReference SecurityObj) * option Node * option Node * option error;
  ExtractObjectExternalDocs :
    Node -> option SpecIndex -> NodeReference (option ExternalDocObj) * option error;
  ExtractMapWebhooks :
    Node -> option SpecIndex ->
    option WebhooksMap * option Node * option Node * option error;
  ExtractExtensions : option Node -> ExtensionsMap;
  (* filepath.Abs; index.NewLocalFSWithConfig; index.NewRemoteFSWithConfig;
     setting RemoteHandlerFunc; what the rolodex caught and its root index *)
  filepathAbs : string -> string * option error;
  NewLocalFSWithConfig : LocalFSConfig -> FS * option error;
  NewRemoteFSWithConfig : SpecIndexConfig -> FS * option error;
  withRemoteHandler : FS -> Handler -> FS;
  GetCaughtErrors : Rolodex -> list error;
  GetRootIndex : Rolodex -> option SpecIndex
}.

Context {X : Externals}.

(** v3.Document *)
Record Document := mkDocument {
  Version : NodeReference string;
  Info : NodeReference (option InfoObj);
  JsonSchemaDialect : NodeReference string;
  Webhooks : NodeReference (option WebhooksMap);
  Servers : NodeReference (list (ValueReference ServerObj));
  Paths : NodeReference (option PathsObj);
  Components : NodeReference (option ComponentsObj);
  Security : NodeReference (list (ValueReference SecurityObj));
  Tags : NodeReference (list (ValueReference TagObj));
  ExternalDocs : NodeReference (option ExternalDocObj);
  Extensions : option ExtensionsMap;
  Index : option SpecIndex;
  DocRolodex : option Rolodex
}.

(** [Document{Version: version}] *)
Definition newDocument (version : NodeReference string) : Document :=
  mkDocument version (zeroRef None) (zeroRef EmptyString) (zeroRef None) (zeroRef [])
    (zeroRef None) (zeroRef None) (zeroRef []) (zeroRef []) (zeroRef None)
    None None None.

Definition setInfo (d : Document) (v : NodeReference (option InfoObj)) : Document :=
  mkDocument (Version d) v (JsonSchemaDialect d) (Webhooks d) (Servers d) (Paths d)
    (Components d) (Security d) (Tags d) (ExternalDocs d) (Extensions d) (Index d)
    (DocRolodex d).
Definition setJsonSchemaDialect (d : Document) (v : NodeReference string) : Document :=
  mkDocument (Version d) (Info d) v (Webhooks d) (Servers d) (Paths d)
    (Components d) (Security d) (Tags d) (ExternalDocs d) (Extensions d) (Index d)
    (DocRolodex d).
Definition setWebhooks (d : Document) (v : NodeReference (option WebhooksMap)) : Document :=
  mkDocument (Version d) (Info d) (JsonSchemaDialect d) v (Servers d) (Paths d)
    (Components d) (Security d) (Tags d) (ExternalDocs d) (Extensions d) (Index d)
    (DocRolodex d).
Definition setServers (d : Document) (v : NodeReference (list (ValueReference ServerObj)))
  : Document :=
  mkDocument (Version d) (Info d) (JsonSchemaDialect d) (Webhooks d) v (Paths d)
    (Components d) (Security d) (Tags d) (ExternalDocs d) (Extensions d) (Index d)
    (DocRolodex d).
Definition setPaths (d : Document) (v : NodeReference (option PathsObj)) : Document :=
  mkDocument (Version d) (Info d) (JsonSchemaDialect d) (Webhooks d) (Servers d) v
    (Components d) (Security d) (Tags d) (ExternalDocs d) (Extensions d) (Index d)
    (DocRolodex d).
Definition setComponents (d : Document) (v : NodeReference (option ComponentsObj)) : Document :=
  mkDocument (Version d) (Info d) (JsonSchemaDialect d) (Webhooks d) (Servers d) (Paths d)
    v (Security d) (Tags d) (ExternalDocs d) (Extensions d) (Index d) (DocRolodex d).
Definition setSecurity (d : Document) (v : NodeReference (list (ValueReference SecurityObj)))
  : Document :=
  mkDocument (Version d) (Info d) (JsonSchemaDialect d) (Webhooks d) (Servers d) (Paths d)
    (Components d) v (Tags d) (ExternalDocs d) (Extensions d) (Index d) (DocRolodex d).
Definition setTags (d : Document) (v : NodeReference (list (ValueReference TagObj))) : Document :=
  mkDocument (Version d) (Info d) (JsonSchemaDialect d) (Webhooks d) (Servers d) (Paths d)
    (Components d) (Security d) v (ExternalDocs d) (Extensions d) (Index d) (DocRolodex d).
Definition setExternalDocs (d : Document) (v : NodeReference (option ExternalDocObj)) : Document :=
  mkDocument (Version d) (Info d) (JsonSchemaDialect d) (Webhooks d) (Servers d) (Paths d)
    (Components d) (Security d) (Tags d) v (Extensions d) (Index d) (DocRolodex d).
Definition setExtensions (d : Document) (v : option ExtensionsMap) : Document :=
  mkDocument (Version d) (Info d) (JsonSchemaDialect d) (Webhooks d) (Servers d) (Paths d)
    (Components d) (Security d) (Tags d) (ExternalDocs d) v (Index d) (DocRolodex d).
Definition setIndex (d : Document) (v : option SpecIndex) : Document :=
  mkDocument (Version d) (Info d) (JsonSchemaDialect d) (Webhooks d) (Servers d) (Paths d)
    (Components d) (Security d) (Tags d) (ExternalDocs d) (Extensions d) v (DocRolodex d).
Definition setRolodex (d : Document) (v : option Rolodex) : Document :=
  mkDocument (Version d) (Info d) (JsonSchemaDialect d) (Webhooks d) (Servers d) (Paths d)
    (Components d) (Security d) (Tags d) (ExternalDocs d) (Extensions d) (Index d) v.

(** An extraction function: the document as it leaves it, and its error. *)
Definition Extraction : Type := result (Document * option error).

(** extractInfo *)
Definition extractInfo (info : SpecInfo) (doc : Document) (idx : option SpecIndex) : Extraction :=
  root <- rootOf info ;;
  let '(_, ln, vn) := FindKeyNodeFullTop InfoLabel (Content root) in
  match vn with
  | Some vn' =>
      Ok (setInfo doc (mkNodeRef (Some (buildInfo ln vn' idx)) ln vn), None)
  | None => Ok (doc, None)
  end.

(** extractSecurity *)
Definition extractSecurity (info : SpecInfo) (doc : Document) (idx : option SpecIndex)
  : Extraction :=
  root <- rootOf info ;;
  let '(sec, ln, vn, err) := ExtractArraySecurity root idx in
  match err with
  | Some e => Ok (doc, Some e)
  | None =>
      match vn, ln with
      | Some _, Some _ => Ok (setSecurity doc (mkNodeRef sec ln vn), None)
      | _, _ => Ok (doc, None)
      end
  end.

(** extractExternalDocs *)
Definition extractExternalDocs (info : SpecInfo) (doc : Document) (idx : option SpecIndex)
  : Extraction :=
  root <- rootOf info ;;
  let '(extDocs, dErr) := ExtractObjectExternalDocs root idx in
  match dErr with
  | Some e => Ok (doc, Some e)
  | None => Ok (setExternalDocs doc extDocs, None)
  end.

(** extractComponents *)
Definition extractComponents (info : SpecInfo) (doc : Document) (idx : option SpecIndex)
  : Extraction :=
  root <- rootOf info ;;
  let '(_, ln, vn) := FindKeyNodeFullTop ComponentsLabel (Content root) in
  match vn with
  | Some vn' =>
      let '(ir, err) := buildComponents vn' idx in
      match err with
      | Some e => Ok (doc, Some e)
      | None => Ok (setComponents doc (mkNodeRef (Some ir) ln vn), None)
      end
  | None => Ok (doc, None)
  end.

(** The loop of extractServers over [vn.Content]. *)
Fixpoint buildServers (ln : option Node) (idx : option SpecIndex)
  (items : list (option Node)) : list (ValueReference ServerObj) :=
  match items with
  | [] => []
  | srvN :: rest =>
      if IsNodeMap srvN
      then mkValueRef (buildServer ln srvN idx) srvN :: buildServers ln idx rest
      else buildServers ln idx rest
  end.

(** extractServers *)
Definition extractServers (info : SpecInfo) (doc : Document) (idx : option SpecIndex)
  : Extraction :=
  root <- rootOf info ;;
  let '(_, ln, vn) := FindKeyNodeFull ServersLabel (Content root) in
  match vn with
  | Some vn' =>
      if IsNodeArray vn
      then Ok (setServers doc (mkNodeRef (buildServers ln idx (Content vn')) ln vn), None)
      else Ok (doc, None)
  | None => Ok (doc, None)
  end.

(** The loop of extractTags over [vn.Content]: the first Build error ends it. *)
Fixpoint buildTags (ln : option Node) (idx : option SpecIndex)
  (items : list (option Node)) : list (ValueReference TagObj) + error :=
  match items with
  | [] => inl []
  | tagN :: rest =>
      if IsNodeMap tagN
      then match buildTag ln tagN idx with
           | (_, Some err) => inr err
           | (tag, None) =>
               match buildTags ln idx rest with
               | inl tags => inl (mkValueRef tag tagN :: tags)
               | inr err => inr err
               end
           end
      else buildTags ln idx rest
  end.

(** extractTags *)
Definition extractTags (info : SpecInfo) (doc : Document) (idx : option SpecIndex)
  : Extraction :=
  root <- rootOf info ;;
  let '(_, ln, vn) := FindKeyNodeFull TagsLabel (Content root) in
  match vn with
  | Some vn' =>
      if IsNodeArray vn
      then match buildTags ln idx (Content vn') with
           | inl tags => Ok (setTags doc (mkNodeRef tags ln vn), None)
           | inr err => Ok (doc, Some err)
           end
      else Ok (doc, None)
  | None => Ok (doc, None)
  end.

(** extractPaths *)
Definition extractPaths (info : SpecInfo) (doc : Document) (idx : option SpecIndex)
  : Extraction :=
  root <- rootOf info ;;
  let '(_, ln, vn) := FindKeyNodeFull PathsLabel (Content root) in
  match vn with
  | Some vn' =>
      let '(ir, err) := buildPaths ln vn' idx in
      match err with
      | Some e => Ok (doc, Some e)
      | None => Ok (setPaths doc (mkNodeRef (Some ir) ln vn), None)
      end
  | None => Ok (doc, None)
  end.

(** extractWebhooks *)
Definition extractWebhooks (info : SpecInfo) (doc : Document) (idx : option SpecIndex)
  : Extraction :=
  let '(hooks, hooksL, hooksN, eErr) := ExtractMapWebhooks (RootNode info) idx in
  match eErr with
  | Some e => Ok (doc, Some e)
  | None =>
      match hooks with
      | Some _ => Ok (setWebhooks doc (mkNodeRef hooks hooksL hooksN), None)
      | None => Ok (doc, None)
      end
  end.

Definition runFunc (f : ExtractionFunc) : SpecInfo -> Document -> option SpecIndex -> Extraction :=
  match f with
  | extractInfoFn => extractInfo
  | extractServersFn => extractServers
  | extractTagsFn => extractTags
  | extractComponentsFn => extractComponents
  | extractSecurityFn => extractSecurity
  | extractExternalDocsFn => extractExternalDocs
  | extractPathsFn => extractPaths
  | extractWebhooksFn => extractWebhooks
  end.

(** What the goroutines share: the document, the error slice, and (for the
    record) the functions that have run.  Each goroutine writes a field of
    its own and appends to the slice; they are interleaved here one whole
    extraction function at a time, in the order of the schedule. *)
Record Shared := mkShared {
  sharedDoc : Document;
  sharedErrs : list error;
  ran : list ExtractionFunc
}.

(** runExtraction: run one function, append its error if any. *)
Definition runExtraction (info : SpecInfo) (idx : option SpecIndex)
  (s : Shared) (f : ExtractionFunc) : result Shared :=
  r <- runFunc f info (sharedDoc s) idx ;;
  let '(doc, er) := r in
  Ok (mkShared doc
        (match er with Some e => (sharedErrs s ++ [e])%list | None => sharedErrs s end)
        (ran s ++ [f])%list).

(** What createDocument returns, with the extraction functions it ran. *)
Record Outcome := mkOutcome {
  document : option Document;
  err : option error;
  extracted : list ExtractionFunc
}.

Definition failWith (e : error) : result Outcome := Ok (mkOutcome None (Some e) []).

(** The rolodex with its local file system, or the error that ends
    createDocument. *)
Definition addLocal (config : DocumentConfiguration) (rolodex : Rolodex)
  : Rolodex + error :=
  if String.eqb (IdxBasePath (indexConfig rolodex)) EmptyString then inl rolodex
  else
    let '(cwd, absError) := filepathAbs (BasePath config) in
    match absError with
    | Some e => inr e
    | None =>
        match LocalFS config with
        | Some fs =>
            inl (mkRolodex (indexConfig rolodex) (rolodexRoot rolodex)
                   (localFS rolodex ++ [(cwd, fs)])%list (remoteFS rolodex)
                   (indexed rolodex) (circularChecked rolodex))
        | None =>
            let '(fileFS, e) := NewLocalFSWithConfig (mkLocalFSConfig cwd (FileFilter config)) in
            match e with
            | Some e' => inr e'
            | None =>
                let c := indexConfig rolodex in
                inl (mkRolodex
                       (mkIndexConfig (IdxBaseURL c) (IdxBasePath c) (AllowRemoteLookup c)
                          true (AvoidCircularReferenceCheck c) (IdxIgnorePolymorphic c)
                          (IdxIgnoreArray c) (IdxLogger c) (IdxSpecInfo c))
                       (rolodexRoot rolodex)
                       (localFS rolodex ++ [(cwd, fileFS)])%list (remoteFS rolodex)
                       (indexed rolodex) (circularChecked rolodex))
            end
        end
    end.

(** The rolodex with its remote file system, or the error that ends
    createDocument.  [idxConfig.BaseURL] is the pointer [config.BaseURL]:
    where the source writes [config.BaseURL.String()] unguarded, the URL is
    the one just tested. *)
Definition addRemote (config : DocumentConfiguration) (rolodex : Rolodex)
  : Rolodex + error :=
  match IdxBaseURL (indexConfig rolodex) with
  | None => inl rolodex
  | Some idxURL =>
      match RemoteFS config with
      | Some fs =>
          match BaseURL config with
          | None => inr (New "cannot use remote filesystem without a BaseURL")
          | Some url =>
              inl (mkRolodex (indexConfig rolodex) (rolodexRoot rolodex)
                     (localFS rolodex) (remoteFS rolodex ++ [(url, fs)])%list
                     (indexed rolodex) (circularChecked rolodex))
          end
      | None =>
          let '(remote, fsErr) := NewRemoteFSWithConfig (indexConfig rolodex) in
          match fsErr with
          | Some e => inr e
          | None =>
              let remote' := match RemoteURLHandler config with
                             | Some h => withRemoteHandler remote h
                             | None => remote
                             end in
              let c := indexConfig rolodex in
              inl (mkRolodex
                     (mkIndexConfig (IdxBaseURL c) (IdxBasePath c) true
                        (AllowFileLookup c) (AvoidCircularReferenceCheck c)
                        (IdxIgnorePolymorphic c) (IdxIgnoreArray c) (IdxLogger c)
                        (IdxSpecInfo c))
                     (rolodexRoot rolodex) (localFS rolodex)
                     (remoteFS rolodex ++ [(idxURL, remote')])%list
                     (indexed rolodex) (circularChecked rolodex))
          end
      end
  end.

(** The rolodex as createDocument makes it: a closed index configuration
    shadowing the document configuration, and the root node. *)
Definition initialRolodex (info : SpecInfo) (config : DocumentConfiguration) : Rolodex :=
  mkRolodex
    (mkIndexConfig (BaseURL config) (BasePath config) false false true
       (IgnorePolymorphicCircularReferences config) (IgnoreArrayCircularReferences config)
       (ConfigLogger config) (Some info))
    (Some (RootNode info)) [] [] false false.

(** IndexTheRolodex, then CheckForCircularReferences unless skipped. *)
Definition indexRolodex (config : DocumentConfiguration) (rolodex : Rolodex) : Rolodex :=
  mkRolodex (indexConfig rolodex) (rolodexRoot rolodex) (localFS rolodex)
    (remoteFS rolodex) true (negb (SkipCircularReferenceCheck config)).

(** createDocument.  [schedule] is the order in which the goroutines of the
    extraction functions get to run. *)
Definition createDocument (info : SpecInfo) (config : DocumentConfiguration)
  (schedule : list ExtractionFunc) : result Outcome :=
  let '(_, labelNode, versionNode) := FindKeyNodeFull OpenAPILabel (Content (RootNode info)) in
  match versionNode with
  | None => failWith (New "no openapi version/tag found, cannot create document")
  | Some vn =>
      let version := mkNodeRef (NodeValue vn) labelNode versionNode in
      let doc := newDocument version in
      match addLocal config (initialRolodex info config) with
      | inr e => failWith e
      | inl rolodex =>
          match addRemote config rolodex with
          | inr e => failWith e
          | inl rolodex =>
              let rolodex := indexRolodex config rolodex in
              let doc := setRolodex doc (Some rolodex) in
              let errs := GetCaughtErrors rolodex in
              let doc := setIndex doc (GetRootIndex rolodex) in
              match Content (RootNode info) with
              | [] => Panic "index out of range"
              | child :: _ =>
                  let doc := setExtensions doc (Some (ExtractExtensions child)) in
                  let '(_, dialectLabel, dialectNode) :=
                    FindKeyNodeFull JSONSchemaDialectLabel (Content (RootNode info)) in
                  let doc :=
                    match dialectNode with
                    | Some dn =>
                        setJsonSchemaDialect doc (mkNodeRef (NodeValue dn) dialectLabel dialectNode)
                    | None => doc
                    end in
                  s <- foldM (runExtraction info (GetRootIndex rolodex)) schedule
                         (mkShared doc errs []) ;;
                  Ok (mkOutcome (Some (sharedDoc s)) (Join (sharedErrs s)) (ran s))
              end
          end
      end
  end.

End CreateDocument.

End LowV3.

(** ** datamodel/low/3.0/create_document.go *)

Module LowV30.
Import Yaml Go Low.

(** The functions of [extractionFuncs]. *)
Inductive ExtractionFunc :=
| extractInfoFn | extractServersFn | extractTagsFn | extractComponentsFn
| extractSecurityFn | extractExternalDocsFn | extractPathsFn.

Definition extractionFuncs : list ExtractionFunc :=
  [extractInfoFn; extractServersFn; extractTagsFn; extractComponentsFn;
   extractSecurityFn; extractExternalDocsFn; extractPathsFn].

(** The objects built by packages shared, v3 (3.0), index and resolver. *)
Class Types := {
  InfoObj : Type;
  ServerObj : Type;
  TagObj : Type;
  ComponentsObj : Type;
  SecurityObj : Type;
  ExternalDocObj : Type;
  PathsObj : Type;
  ExtensionsMap : Type;
  SpecIndex : Type
}.

Section CreateDocument.

Context {T : Types}.

(** What CreateDocument and the extraction functions call in packages
    utils, low, shared, index and resolver. *)
Class Externals := {
  ServersLabel : string;
  TagsLabel : string;
  InfoLabel : string;
  ComponentsLabel : string;
  PathsLabel : string;
  FindKeyNodeFull :
    string -> list (option Node) -> option Node * option Node * option Node;
  IsNodeArray : option Node -> bool;
  IsNodeMap : option Node -> bool;
  buildInfo : Node -> SpecIndex -> InfoObj;
  buildServer : option Node -> SpecIndex -> ServerObj;
  buildTag : option Node -> SpecIndex -> TagObj * option error;
  buildComponents : Node -> SpecIndex -> ComponentsObj * option error;
  buildPaths : Node -> SpecIndex -> PathsObj * option error;
  ExtractObjectSecurity :
    Node -> SpecIndex -> NodeReference (option SecurityObj) * option error;
  ExtractObjectExternalDocs :
    Node -> SpecIndex -> NodeReference (option ExternalDocObj) * option error;
  ExtractExtensions : option Node -> ExtensionsMap;
  (* index.NewSpecIndex; the resolver's circular reference check has no
     effect on what follows *)
  NewSpecIndex : Node -> SpecIndex
}.

Context {X : Externals}.

(** v3.Document (3.0) *)
Record Document := mkDocument {
  Version : ValueReference string;
  Info : NodeReference (option InfoObj);
  Servers : NodeReference (list (ValueReference ServerObj));
  Paths : NodeReference (option PathsObj);
  Components : NodeReference (option ComponentsObj);
  Security : NodeReference (option SecurityObj);
  Tags : NodeReference (list (ValueReference TagObj));
  ExternalDocs : NodeReference (option ExternalDocObj);
  Extensions : option ExtensionsMap;
  Index : option SpecIndex
}.

Definition setInfo (d : Document) (v : NodeReference (option InfoObj)) : Document :=
  mkDocument (Version d) v (Servers d) (Paths d) (Components d) (Security d) (Tags d)
    (ExternalDocs d) (Extensions d) (Index d).
Definition setServers (d : Document) (v : NodeReference (list (ValueReference ServerObj)))
  : Document :=
  mkDocument (Version d) (Info d) v (Paths d) (Components d) (Security d) (Tags d)
    (ExternalDocs d) (Extensions d) (Index d).
Definition setPaths (d : Document) (v : NodeReference (option PathsObj)) : Document :=
  mkDocument (Version d) (Info d) (Servers d) v (Components d) (Security d) (Tags d)
    (ExternalDocs d) (Extensions d) (Index d).
Definition setComponents (d : Document) (v : NodeReference (option ComponentsObj)) : Document :=
  mkDocument (Version d) (Info d) (Servers d) (Paths d) v (Security d) (Tags d)
    (ExternalDocs d) (Extensions d) (Index d).
Definition setSecurity (d : Document) (v : NodeReference (option SecurityObj)) : Document :=
  mkDocument (Version d) (Info d) (Servers d) (Paths d) (Components d) v (Tags d)
    (ExternalDocs d) (Extensions d) (Index d).
Definition setTags (d : Document) (v : NodeReference (list (ValueReference TagObj))) : Document :=
  mkDocument (Version d) (Info d) (Servers d) (Paths d) (Components d) (Security d) v
    (ExternalDocs d) (Extensions d) (Index d).
Definition setExternalDocs (d : Document) (v : NodeReference (option ExternalDocObj)) : Document :=
  mkDocument (Version d) (Info d) (Servers d) (Paths d) (Components d) (Security d) (Tags d)
    v (Extensions d) (Index d).

(** An extraction function: the document as it leaves it, and its error. *)
Definition Extraction : Type := Document * option error.

(** extractInfo *)
Definition extractInfo (info : SpecInfo) (doc : Document) (idx : SpecIndex) : Extraction :=
  let '(_, ln, vn) := FindKeyNodeFull InfoLabel (Content (RootNode info)) in
  match vn with
  | Some vn' => (setInfo doc (mkNodeRef (Some (buildInfo vn' idx)) ln vn), None)
  | None => (doc, None)
  end.

(** extractSecurity *)
Definition extractSecurity (info : SpecInfo) (doc : Document) (idx : SpecIndex) : Extraction :=
  let '(sec, sErr) := ExtractObjectSecurity (RootNode info) idx in
  match sErr with
  | Some e => (doc, Some e)
  | None => (setSecurity doc sec, None)
  end.

(** extractExternalDocs *)
Definition extractExternalDocs (info : SpecInfo) (doc : Document) (idx : SpecIndex)
  : Extraction :=
  let '(extDocs, dErr) := ExtractObjectExternalDocs (RootNode info) idx in
  match dErr with
  | Some e => (doc, Some e)
  | None => (setExternalDocs doc extDocs, None)
  end.

(** extractComponents *)
Definition extractComponents (info : SpecInfo) (doc : Document) (idx : SpecIndex)
  : Extraction :=
  let '(_, ln, vn) := FindKeyNodeFull ComponentsLabel (Content (RootNode info)) in
  match vn with
  | Some vn' =>
      let '(ir, err) := buildComponents vn' idx in
      match err with
      | Some e => (doc, Some e)
      | None => (setComponents doc (mkNodeRef (Some ir) ln vn), None)
      end
  | None => (doc, None)
  end.

(** The loop of extractServers over [vn.Content]. *)
Fixpoint buildServers (idx : SpecIndex) (items : list (option Node))
  : list (ValueReference ServerObj) :=
  match items with
  | [] => []
  | srvN :: rest =>
      if IsNodeMap srvN
      then mkValueRef (buildServer srvN idx) srvN :: buildServers idx rest
      else buildServers idx rest
  end.

(** extractServers *)
Definition extractServers (info : SpecInfo) (doc : Document) (idx : SpecIndex) : Extraction :=
  let '(_, ln, vn) := FindKeyNodeFull ServersLabel (Content (RootNode info)) in
  match vn with
  | Some vn' =>
      if IsNodeArray vn
      then (setServers doc (mkNodeRef (buildServers idx (Content vn')) ln vn), None)
      else (doc, None)
  | None => (doc, None)
  end.

(** The loop of extractTags over [vn.Content]: the first Build error ends it. *)
Fixpoint buildTags (idx : SpecIndex) (items : list (option Node))
  : list (ValueReference TagObj) + error :=
  match items with
  | [] => inl []
  | tagN :: rest =>
      if IsNodeMap tagN
      then match buildTag tagN idx with
           | (_, Some err) => inr err
           | (tag, None) =>
               match buildTags idx rest with
               | inl tags => inl (mkValueRef tag tagN :: tags)
               | inr err => inr err
               end
           end
      else buildTags idx rest
  end.

(** extractTags *)
Definition extractTags (info : SpecInfo) (doc : Document) (idx : SpecIndex) : Extraction :=
  let '(_, ln, vn) := FindKeyNodeFull TagsLabel (Content (RootNode info)) in
  match vn with
  | Some vn' =>
      if IsNodeArray vn
      then match buildTags idx (Content vn') with
           | inl tags => (setTags doc (mkNodeRef tags ln vn), None)
           | inr err => (doc, Some err)
           end
      else (doc, None)
  | None => (doc, None)
  end.

(** extractPaths *)
Definition extractPaths (info : SpecInfo) (doc : Document) (idx : SpecIndex) : Extraction :=
  let '(_, ln, vn) := FindKeyNodeFull PathsLabel (Content (RootNode info)) in
  match vn with
  | Some vn' =>
      let '(ir, err) := buildPaths vn' idx in
      match err with
      | Some e => (doc, Some e)
      | None => (setPaths doc (mkNodeRef (Some ir) ln vn), None)
      end
  | None => (doc, None)
  end.

Definition runFunc (f : ExtractionFunc) : SpecInfo -> Document -> SpecIndex -> Extraction :=
  match f with
  | extractInfoFn => extractInfo
  | extractServersFn => extractServers
  | extractTagsFn => extractTags
  | extractComponentsFn => extractComponents
  | extractSecurityFn => extractSecurity
  | extractExternalDocsFn => extractExternalDocs
  | extractPathsFn => extractPaths
  end.

(** What the goroutines share: the document and the error slice. *)
Definition Shared : Type := Document * list error.

(** runExtraction *)
Definition runExtraction (info : SpecInfo) (idx : SpecIndex) (s : Shared) (f : ExtractionFunc)
  : Shared :=
  let '(doc, er) := runFunc f info (fst s) idx in
  (doc, match er with Some e => (snd s ++ [e])%list | None => snd s end).

(** CreateDocument.  [schedule] is the order in which the goroutines of the
    extraction functions get to run.  The document is never nil. *)
Definition CreateDocument (info : SpecInfo) (schedule : list ExtractionFunc)
  : result (Document * list error) :=
  let doc := mkDocument (mkValueRef (SpecVersion info) (Some (RootNode info)))
               (zeroRef None) (zeroRef []) (zeroRef None) (zeroRef None) (zeroRef None)
               (zeroRef []) (zeroRef None) None None in
  let idx := NewSpecIndex (RootNode info) in
  let doc := mkDocument (Version doc) (Info doc) (Servers doc) (Paths doc) (Components doc)
               (Security doc) (Tags doc) (ExternalDocs doc) (Extensions doc) (Some idx) in
  match Content (RootNode info) with
  | [] => Panic "index out of range"
  | child :: _ =>
      let doc := mkDocument (Version doc) (Info doc) (Servers doc) (Paths doc)
                   (Components doc) (Security doc) (Tags doc) (ExternalDocs doc)
                   (Some (ExtractExtensions child)) (Index doc) in
      Ok (fold_left (runExtraction info idx) schedule (doc, []))
  end.

End CreateDocument.

End LowV30.

(** ** createDocument: what is fatal, what is accumulated *)

Module LowFacts.
Import Yaml Go Low.

Ltac break_match_hyp H :=
  match type of H with
  | context [match ?x with _ => _ end] => destruct x eqn:?
  end.

Ltac break_match_goal :=
  match goal with
  | |- context [match ?x with _ => _ end] =>
      lazymatch x with
      | context [match _ with _ => _ end] => fail
      | _ => destruct x eqn:?
      end
  end.

Section V3.
Import LowV3.

Context {T : Types} {X : Externals}.

Definition blankDocument : Document := newDocument (zeroRef EmptyString).

(** The error an extraction function returns, as a list. *)
Definition errorOf (info : SpecInfo) (idx : option SpecIndex) (f : ExtractionFunc)
  : list error :=
  match runFunc f info blankDocument idx with
  | Ok (_, Some e) => [e]
  | _ => []
  end.

Ltac unfold_extractors :=
  unfold extractInfo, extractServers, extractTags, extractComponents,
    extractSecurity, extractExternalDocs, extractPaths, extractWebhooks, bind.

(** With a root node no extraction function panics; each leaves the version
    alone, and its error does not depend on the document it is handed. *)
Lemma runFunc_ok (info : SpecInfo) (idx : option SpecIndex) (root : Node)
  (f : ExtractionFunc) (doc : Document) :
  rootOf info = Ok root ->
  exists doc' er,
    runFunc f info doc idx = Ok (doc', er)
    /\ Version doc' = Version doc
    /\ errorOf info idx f = match er with Some e => [e] | None => [] end.
Proof.
  intros Hroot. unfold errorOf.
  destruct f; cbn [runFunc]; unfold_extractors; rewrite ?Hroot;
    repeat break_match_goal; subst;
    try discriminate;
    repeat match goal with
           | H : (_, _) = (_, _) |- _ => injection H as ? ?; subst
           | H : Ok _ = Ok _ |- _ => injection H as ?; subst
           end;
    try (eexists; eexists; repeat split; reflexivity).
Qed.









End V3.

Section V30.
Import LowV30.

Context {T : Types} {X : Externals}.

Definition blankDocument30 (info : SpecInfo) : Document :=
  mkDocument (mkValueRef (SpecVersion info) (Some (RootNode info)))
    (zeroRef None) (zeroRef []) (zeroRef None) (zeroRef None) (zeroRef None)
    (zeroRef []) (zeroRef None) None None.

(** The error an extraction function returns, as a list. *)
Definition errorOf30 (info : SpecInfo) (idx : SpecIndex) (f : ExtractionFunc) : list error :=
  match snd (runFunc f info (blankDocument30 info) idx) with
  | Some e => [e]
  | None => []
  end.

Lemma runFunc30_error (info : SpecInfo) (idx : SpecIndex) (f : ExtractionFunc)
  (doc : Document) :
  errorOf30 info idx f
  = match snd (runFunc f info doc idx) with Some e => [e] | None => [] end.
Proof.
  unfold errorOf30.
  destruct f; cbn [runFunc];
    unfold extractInfo, extractServers, extractTags, extractComponents,
      extractSecurity, extractExternalDocs, extractPaths;
    repeat break_match_goal; subst; simpl in *; try congruence;
    repeat match goal with
           | H : (_, _) = (_, _) |- _ => injection H as ? ?; subst
           end;
    try congruence.
Qed.

(** Every scheduled function runs: the errors they return are appended, in
    the order they ran, to those already there. *)
Lemma fold_runExtraction30 (info : SpecInfo) (idx : SpecIndex)
  (schedule : list ExtractionFunc) :
  forall s,
    snd (fold_left (runExtraction info idx) schedule s)
    = (snd s ++ flat_map (errorOf30 info idx) schedule)%list.
Proof.
  induction schedule as [|f schedule IH]; intros s; simpl.
  - now rewrite app_nil_r.
  - rewrite IH. unfold runExtraction at 1.
    rewrite (runFunc30_error info idx f (fst s)).
    destruct (runFunc f info (fst s) idx) as [doc [e|]]; simpl;
      now rewrite <- ?app_assoc.
Qed.



End V30.

Section Both.

Context {T3 : LowV3.Types} {X3 : LowV3.Externals}.
Context {T0 : LowV30.Types} {X0 : LowV30.Externals}.



End Both.

End LowFacts.

(** ** A small document, run through both packages *)

Module LowExamples.
Import Yaml Go Low LowFacts.

(** The first key of that value among key/value pairs. *)
Fixpoint findPair (key : string) (nodes : list (option Node))
  : option (Node * option Node) :=
  match nodes with
  | Some k :: v :: rest =>
      if String.eqb (NodeValue k) key then Some (k, v) else findPair key rest
  | _ => None
  end.

(** Modelled from the spec: utils.FindKeyNodeFull is not among the sources;
    this is FindKeyTop of section 4.1 ("locate key at the top level of a
    YAML mapping node only", key node and value node, or nulls), applied to
    the nodes given and, failing that, to the children of each of them. *)
Definition lookupKey (key : string) (nodes : list (option Node))
  : option Node * option Node * option Node :=
  match findPair key nodes with
  | Some (k, v) => (Some k, Some k, v)
  | None =>
      let below (n : option Node) :=
        match n with
        | Some parent =>
            match findPair key (Content parent) with
            | Some (k, v) => [(Some parent, Some k, v)]
            | None => []
            end
        | None => []
        end in
      hd (None, None, None) (flat_map below nodes)
  end.

(** Modelled from the spec: the shape tests IsArray and IsMap of section
    4.1 (utils.IsNodeArray and utils.IsNodeMap are not among the sources). *)
Definition isArray (n : option Node) : bool :=
  match n with
  | Some nd => match NodeKind nd with SequenceNode => true | _ => false end
  | None => false
  end.

Definition isMap (n : option Node) : bool :=
  match n with
  | Some nd => match NodeKind nd with MappingNode => true | _ => false end
  | None => false
  end.

Definition scalar (line : Z) (value : string) : Node :=
  mkNode ScalarNode "!!str" value line 1 [].
Definition mapping (line : Z) (content : list (option Node)) : Node :=
  mkNode MappingNode "!!map" EmptyString line 1 content.
Definition sequence (line : Z) (content : list (option Node)) : Node :=
  mkNode SequenceNode "!!seq" EmptyString line 1 content.

(** openapi: 3.1.0 / servers: none / tags: [ {name: a}, b ] *)
Definition tagItem : Node := mapping 4 [Some (scalar 4 "name"); Some (scalar 4 "a")].
Definition tagsNode : Node := sequence 4 [Some tagItem; Some (scalar 5 "b")].
Definition rootMapping : Node :=
  mapping 1 [Some (scalar 1 "openapi"); Some (scalar 1 "3.1.0");
             Some (scalar 2 "servers"); Some (scalar 2 "none");
             Some (scalar 3 "tags"); Some tagsNode].
Definition sampleInfo : SpecInfo :=
  mkSpecInfo (mkNode DocumentNode EmptyString EmptyString 1 1 [Some rootMapping]) "3.1.0".


#[local] Instance unitTypes : LowV3.Types :=
  {| LowV3.InfoObj := unit; LowV3.ServerObj := unit; LowV3.TagObj := unit;
     LowV3.ComponentsObj := unit; LowV3.SecurityObj := unit;
     LowV3.ExternalDocObj := unit; LowV3.PathsObj := unit; LowV3.WebhooksMap := unit;
     LowV3.ExtensionsMap := unit; LowV3.SpecIndex := unit; LowV3.FS := unit;
     LowV3.Logger := unit; LowV3.Handler := unit |}.

(** Externals whose builders always succeed, except that the external
    documentation does not build and the rolodex caught one error;
    [localFSError] is what index.NewLocalFSWithConfig answers. *)
Definition sampleExternals (localFSError : option error) : @LowV3.Externals unitTypes :=
  {| LowV3.OpenAPILabel := "openapi";
     LowV3.JSONSchemaDialectLabel := "jsonSchemaDialect";
     LowV3.ServersLabel := "servers";
     LowV3.TagsLabel := "tags";
     LowV3.InfoLabel := "info";
     LowV3.ComponentsLabel := "components";
     LowV3.PathsLabel := "paths";
     LowV3.FindKeyNodeFull := lookupKey;
     LowV3.FindKeyNodeFullTop := lookupKey;
     LowV3.IsNodeArray := isArray;
     LowV3.IsNodeMap := isMap;
     LowV3.buildInfo := fun _ _ _ => tt;
     LowV3.buildServer := fun _ _ _ => tt;
     LowV3.buildTag := fun _ _ _ => (tt, None);
     LowV3.buildComponents := fun _ _ => (tt, None);
     LowV3.buildPaths := fun _ _ _ => (tt, None);
     LowV3.ExtractArraySecurity := fun _ _ => ([], None, None, None);
     LowV3.ExtractObjectExternalDocs :=
       fun _ _ => (zeroRef None, Some (New "externalDocs did not build"));
     LowV3.ExtractMapWebhooks := fun _ _ => (None, None, None, None);
     LowV3.ExtractExtensions := fun _ => tt;
     LowV3.filepathAbs := fun p => (p, None);
     LowV3.NewLocalFSWithConfig := fun _ => (tt, localFSError);
     LowV3.NewRemoteFSWithConfig := fun _ => (tt, None);
     LowV3.withRemoteHandler := fun fs _ => fs;
     LowV3.GetCaughtErrors := fun _ => [New "circular reference"];
     LowV3.GetRootIndex := fun _ => Some tt |}.

#[local] Instance unitTypes30 : LowV30.Types :=
  {| LowV30.InfoObj := unit; LowV30.ServerObj := unit; LowV30.TagObj := unit;
     LowV30.ComponentsObj := unit; LowV30.SecurityObj := unit;
     LowV30.ExternalDocObj := unit; LowV30.PathsObj := unit;
     LowV30.ExtensionsMap := unit; LowV30.SpecIndex := unit |}.

Definition sampleExternals30 : @LowV30.Externals unitTypes30 :=
  {| LowV30.ServersLabel := "servers";
     LowV30.TagsLabel := "tags";
     LowV30.InfoLabel := "info";
     LowV30.ComponentsLabel := "components";
     LowV30.PathsLabel := "paths";
     LowV30.FindKeyNodeFull := lookupKey;
     LowV30.IsNodeArray := isArray;
     LowV30.IsNodeMap := isMap;
     LowV30.buildInfo := fun _ _ => tt;
     LowV30.buildServer := fun _ _ => tt;
     LowV30.buildTag := fun _ _ => (tt, None);
     LowV30.buildComponents := fun _ _ => (tt, None);
     LowV30.buildPaths := fun _ _ => (tt, None);
     LowV30.ExtractObjectSecurity := fun _ _ => (zeroRef None, None);
     LowV30.ExtractObjectExternalDocs :=
       fun _ _ => (zeroRef None, Some (New "externalDocs did not build"));
     LowV30.ExtractExtensions := fun _ => tt;
     LowV30.NewSpecIndex := fun _ => tt |}.

(** NewDocumentConfiguration, with a base path or without. *)
Definition configWith (basePath : string) : @LowV3.DocumentConfiguration unitTypes :=
  LowV3.mkConfig None None basePath [] None None false false false None.





Definition blank3 : @LowV3.Document unitTypes := @blankDocument unitTypes.


End LowExamples.

(** ** datamodel: TranslateSliceParallel *)

Module Translate.

Section Parallel.

Variables T U E : Type.

(** What [translate] answers for one element: a value, the Continue
    sentinel, the end-of-input sentinel, or an error. *)
Inductive TranslateResult :=
| TValue (u : U)
| TContinue
| TEndOfInput
| TErr (e : E).

(** What [consume] answers for one value. *)
Inductive ConsumeResult :=
| COk
| CEndOfInput
| CErr (e : E).

Variable inputs : list T.
Variable translate : nat -> T -> TranslateResult.
(** [consume] may keep state of its own: its answer is a function of the
    values it was handed before and of the value at hand. *)
Variable consume : list U -> U -> ConsumeResult.

(** The state of a call: the indices translated so far, in the order the
    translations completed; the index to deliver next; the values handed
    to [consume], in order; and what the call returned, once it has. *)
Record State := mkState {
  calls : list nat;
  next : nat;
  consumed : list U;
  returned : option (option E)
}.

Definition init : State := mkState [] 0 [] None.

(** What the scheduler may let happen next. *)
Inductive Action :=
| Translate (i : nat)   (* the translation of element i completes *)
| Deliver               (* the next element in index order is delivered *)
| Finish.               (* every element has been delivered *)

Definition translated (i : nat) (s : State) : bool := existsb (Nat.eqb i) (calls s).

(** Modelled from the spec: datamodel.TranslateSliceParallel is not among
    the sources (only its test is).  Section 4.8: "apply translate in
    parallel, preserving input order when delivering to consume.  Continue:
    translate returned no value for this element; skip delivery.
    EndOfInput: translate or consume asks for early termination; return
    success.  Err: cancel remaining work, return the error."  One step of a
    call: [None] when the action cannot happen in this state; nothing
    happens once the call has returned. *)
Definition exec (s : State) (a : Action) : option State :=
  match returned s with
  | Some _ => None
  | None =>
      match a with
      | Translate i =>
          if translated i s then None
          else match nth_error inputs i with
               | None => None
               | Some x =>
                   match translate i x with
                   | TValue _ | TContinue =>
                       Some (mkState (calls s ++ [i])%list (next s) (consumed s) None)
                   | TEndOfInput =>
                       Some (mkState (calls s ++ [i])%list (next s) (consumed s) (Some None))
                   | TErr e =>
                       Some (mkState (calls s ++ [i])%list (next s) (consumed s)
                               (Some (Some e)))
                   end
               end
      | Deliver =>
          if translated (next s) s
          then match nth_error inputs (next s) with
               | None => None
               | Some x =>
                   match translate (next s) x with
                   | TValue u =>
                       match consume (consumed s) u with
                       | COk =>
                           Some (mkState (calls s) (S (next s)) (consumed s ++ [u])%list None)
                       | CEndOfInput =>
                           Some (mkState (calls s) (S (next s)) (consumed s ++ [u])%list
                                   (Some None))
                       | CErr e =>
                           Some (mkState (calls s) (S (next s)) (consumed s ++ [u])%list
                                   (Some (Some e)))
                       end
                   | TContinue => Some (mkState (calls s) (S (next s)) (consumed s) None)
                   | _ => None
                   end
               end
          else None
      | Finish =>
          if Nat.eqb (next s) (List.length inputs)
          then Some (mkState (calls s) (next s) (consumed s) (Some None))
          else None
      end
  end.

(** A run under a schedule. *)
Fixpoint run (schedule : list Action) (s : State) : option State :=
  match schedule with
  | [] => Some s
  | a :: rest =>
      match exec s a with
      | Some s' => run rest s'
      | None => None
      end
  end.

(** Modelled from the spec: what TranslateSliceParallel returns under a
    schedule that takes it to its return ([Some None]: success). *)
Definition TranslateSliceParallel (schedule : list Action) : option (option E) :=
  match run schedule init with
  | Some s => returned s
  | None => None
  end.

(** The value element [i] contributes to the output, if any. *)
Definition valueAt (i : nat) : list U :=
  match nth_error inputs i with
  | Some x => match translate i x with TValue u => [u] | _ => [] end
  | None => []
  end.

(** The values of the elements before index [k], in index order. *)
Definition delivered (k : nat) : list U := flat_map valueAt (seq 0 k).

(** [map(translate, inputs)] for a translate that always gives a value. *)
Definition mapIndexed (f : nat -> T -> U) : list U :=
  map (fun ix => f (fst ix) (snd ix)) (combine (seq 0 (List.length inputs)) inputs).

(** What is left to do: translations, deliveries, and the return. *)
Definition remaining (s : State) : nat :=
  (List.length inputs - List.length (calls s)) + (List.length inputs - next s)
  + match returned s with Some _ => 0 | None => 1 end.

(** *** Invariants of a call *)

Definition okSoFar (r : TranslateResult) : bool :=
  match r with
  | TValue _ | TContinue => true
  | _ => false
  end.

Record Inv (s : State) : Prop := mkInv {
  inv_consumed : consumed s = delivered (next s);
  inv_next : next s <= List.length inputs;
  inv_nodup : NoDup (calls s);
  inv_calls : forall i, In i (calls s) -> i < List.length inputs;
  inv_before : forall i, i < next s -> In i (calls s);
  inv_running :
    returned s = None ->
    forall i x, In i (calls s) -> nth_error inputs i = Some x ->
                okSoFar (translate i x) = true;
  inv_err :
    forall i x e, In i (calls s) -> nth_error inputs i = Some x ->
                  translate i x = TErr e -> returned s = Some (Some e)
}.

Lemma translated_In (i : nat) (s : State) : translated i s = true <-> In i (calls s).
Proof.
  unfold translated. rewrite existsb_exists. split.
  - intros (j & Hj & Heq). apply Nat.eqb_eq in Heq. now subst.
  - intros H. exists i. split; [exact H | apply Nat.eqb_refl].
Qed.

Lemma delivered_S (k : nat) : delivered (S k) = (delivered k ++ valueAt k)%list.
Proof.
  unfold delivered. rewrite seq_S, flat_map_app. simpl. now rewrite app_nil_r.
Qed.

Lemma init_Inv : Inv init.
Proof.
  constructor; simpl; try (intros; contradiction); try (intros; lia); constructor.
Qed.

Lemma NoDup_snoc (l : list nat) (i : nat) : NoDup l -> ~ In i l -> NoDup (l ++ [i])%list.
Proof.
  intros Hl Hi. apply (Permutation_NoDup (l := i :: l)).
  - rewrite Permutation_app_comm. reflexivity.
  - now constructor.
Qed.

(** A translation that completes keeps the invariants. *)
Lemma translate_Inv (s : State) (i : nat) (x : T) (ret : option (option E)) :
  Inv s -> returned s = None -> ~ In i (calls s) -> nth_error inputs i = Some x ->
  (ret = None -> okSoFar (translate i x) = true) ->
  (forall e, translate i x = TErr e -> ret = Some (Some e)) ->
  Inv (mkState (calls s ++ [i])%list (next s) (consumed s) ret).
Proof.
  intros [Hc Hn Hd Hcalls Hb Hr He] Hrun Hi Hx Hok Herr.
  constructor; simpl.
  - exact Hc.
  - exact Hn.
  - now apply NoDup_snoc.
  - intros j Hj. apply in_app_or in Hj as [Hj | [<- | []]]; [now apply Hcalls|].
    apply nth_error_Some. congruence.
  - intros j Hj. apply in_or_app. left. now apply Hb.
  - intros Hret j y Hj Hy. apply in_app_or in Hj as [Hj | [<- | []]].
    + now apply (Hr Hrun j y).
    + replace y with x by congruence. now apply Hok.
  - intros j y e Hj Hy Hte. apply in_app_or in Hj as [Hj | [<- | []]].
    + specialize (Hr Hrun j y Hj Hy). rewrite Hte in Hr. discriminate.
    + replace y with x in Hte by congruence. now apply Herr.
Qed.

(** A delivery, or the skip of a Continue, keeps the invariants. *)
Lemma deliver_Inv (s : State) (x : T) (out : list U) (ret : option (option E)) :
  Inv s -> returned s = None -> In (next s) (calls s) ->
  nth_error inputs (next s) = Some x -> valueAt (next s) = out ->
  Inv (mkState (calls s) (S (next s)) (consumed s ++ out)%list ret).
Proof.
  intros [Hc Hn Hd Hcalls Hb Hr He] Hrun Hin Hx Hout.
  constructor; simpl.
  - rewrite delivered_S, Hc, Hout. reflexivity.
  - apply nth_error_Some. congruence.
  - exact Hd.
  - exact Hcalls.
  - intros j Hj. destruct (Nat.eq_dec j (next s)) as [-> | Hne]; [exact Hin|].
    apply Hb. lia.
  - intros _ j y Hj Hy. now apply (Hr Hrun j y).
  - intros j y e Hj Hy Hte. specialize (Hr Hrun j y Hj Hy).
    rewrite Hte in Hr. discriminate.
Qed.

Lemma exec_running (s s' : State) (a : Action) :
  exec s a = Some s' -> returned s = None.
Proof. unfold exec. now destruct (returned s). Qed.

Lemma exec_Inv (s s' : State) (a : Action) : Inv s -> exec s a = Some s' -> Inv s'.
Proof.
  intros HI Hex. pose proof (exec_running _ _ _ Hex) as Hrun.
  unfold exec in Hex. rewrite Hrun in Hex. destruct a as [i| |].
  - destruct (translated i s) eqn:Ht; [discriminate|].
    assert (Hi : ~ In i (calls s)) by (rewrite <- translated_In; congruence).
    destruct (nth_error inputs i) as [x|] eqn:Hx; [|discriminate].
    destruct (translate i x) as [u| | |e] eqn:Hte; injection Hex as <-;
      apply translate_Inv with (x := x); try assumption;
      rewrite ?Hte; try reflexivity; try discriminate; try congruence.
  - destruct (translated (next s) s) eqn:Ht; [|discriminate].
    apply translated_In in Ht.
    destruct (nth_error inputs (next s)) as [x|] eqn:Hx; [|discriminate].
    destruct (translate (next s) x) as [u| | |e] eqn:Hte; try discriminate.
    + assert (Hv : valueAt (next s) = [u]) by (unfold valueAt; now rewrite Hx, Hte).
      destruct (consume (consumed s) u); injection Hex as <-;
        now apply deliver_Inv with (x := x).
    + assert (Hv : valueAt (next s) = []) by (unfold valueAt; now rewrite Hx, Hte).
      injection Hex as <-.
      rewrite <- (app_nil_r (consumed s)). now apply deliver_Inv with (x := x).
  - destruct (Nat.eqb (next s) (List.length inputs)); [|discriminate].
    injection Hex as <-. destruct HI as [Hc Hn Hd Hcalls Hb Hr He].
    constructor; simpl; try assumption.
    + discriminate.
    + intros j y e Hj Hy Hte. specialize (Hr Hrun j y Hj Hy).
      rewrite Hte in Hr. discriminate.
Qed.

Lemma run_Inv (schedule : list Action) :
  forall s s', Inv s -> run schedule s = Some s' -> Inv s'.
Proof.
  induction schedule as [|a schedule IH]; intros s s' HI Hrun; simpl in Hrun.
  - now injection Hrun as <-.
  - destruct (exec s a) as [s1|] eqn:Hex; [|discriminate].
    eapply IH; [|exact Hrun]. eapply exec_Inv; eassumption.
Qed.

(** *** Every call returns *)

Lemma calls_bound (s : State) (i : nat) :
  Inv s -> ~ In i (calls s) -> i < List.length inputs ->
  List.length (calls s) < List.length inputs.
Proof.
  intros HI Hi Hlt.
  assert (Hle : List.length (i :: calls s) <= List.length (seq 0 (List.length inputs))).
  { apply NoDup_incl_length.
    - constructor; [exact Hi | apply (inv_nodup _ HI)].
    - intros j [<- | Hj]; apply in_seq; [lia|].
      pose proof (inv_calls _ HI j Hj). lia. }
  rewrite length_seq in Hle. simpl in Hle. lia.
Qed.

(** Each step uses up some of what is left to do. *)
Lemma exec_remaining (s s' : State) (a : Action) :
  Inv s -> exec s a = Some s' -> remaining s' < remaining s.
Proof.
  intros HI Hex. pose proof (exec_running _ _ _ Hex) as Hrun.
  unfold exec in Hex. rewrite Hrun in Hex. unfold remaining. rewrite Hrun.
  destruct a as [i| |].
  - destruct (translated i s) eqn:Ht; [discriminate|].
    assert (Hi : ~ In i (calls s)) by (rewrite <- translated_In; congruence).
    destruct (nth_error inputs i) as [x|] eqn:Hx; [|discriminate].
    assert (Hlt : i < List.length inputs) by (apply nth_error_Some; congruence).
    pose proof (calls_bound s i HI Hi Hlt).
    destruct (translate i x); injection Hex as <-; simpl;
      rewrite length_app; simpl; lia.
  - destruct (translated (next s) s); [|discriminate].
    destruct (nth_error inputs (next s)) as [x|] eqn:Hx; [|discriminate].
    assert (Hlt : next s < List.length inputs) by (apply nth_error_Some; congruence).
    destruct (translate (next s) x) as [u| | |e]; try discriminate.
    + destruct (consume (consumed s) u); injection Hex as <-; simpl; lia.
    + injection Hex as <-. simpl. lia.
  - destruct (Nat.eqb (next s) (List.length inputs)); [|discriminate].
    injection Hex as <-. simpl. lia.
Qed.

(** While the call has not returned, something can happen. *)
Lemma exec_progress (s : State) :
  Inv s -> returned s = None -> exists a s', exec s a = Some s'.
Proof.
  intros HI Hrun. unfold exec. rewrite Hrun.
  destruct (Nat.eq_dec (next s) (List.length inputs)) as [Heq | Hne].
  - exists Finish. apply Nat.eqb_eq in Heq. rewrite Heq. eauto.
  - pose proof (inv_next _ HI) as Hle.
    destruct (nth_error inputs (next s)) as [x|] eqn:Hx;
      [|apply nth_error_None in Hx; lia].
    destruct (translated (next s) s) eqn:Ht.
    + exists Deliver. rewrite ?Ht, ?Hx.
      apply translated_In in Ht.
      pose proof (inv_running _ HI Hrun _ _ Ht Hx) as Hok.
      destruct (translate (next s) x) as [u| | |e]; try discriminate; [|eauto].
      destruct (consume (consumed s) u); eauto.
    + exists (Translate (next s)). rewrite ?Ht, ?Hx.
      destruct (translate (next s) x); eauto.
Qed.

Lemma run_app (l1 l2 : list Action) (s : State) :
  run (l1 ++ l2)%list s
  = match run l1 s with Some s' => run l2 s' | None => None end.
Proof.
  revert s. induction l1 as [|a l1 IH]; intros s; simpl; [reflexivity|].
  destruct (exec s a); [apply IH | reflexivity].
Qed.

Lemma run_completes (m : nat) :
  forall s, remaining s <= m -> Inv s ->
    exists schedule s' r, run schedule s = Some s' /\ returned s' = Some r.
Proof.
  induction m as [|m IH]; intros s Hm HI.
  - destruct (returned s) as [r|] eqn:Hr.
    + exists [], s, r. now split.
    + unfold remaining in Hm. rewrite Hr in Hm. lia.
  - destruct (returned s) as [r|] eqn:Hr.
    + exists [], s, r. now split.
    + destruct (exec_progress s HI Hr) as (a & s1 & Hex).
      pose proof (exec_remaining _ _ _ HI Hex) as Hlt.
      destruct (IH s1) as (schedule & s' & r & Hrun & Hret);
        [lia | eapply exec_Inv; eassumption|].
      exists (a :: schedule), s', r. simpl. rewrite Hex. now split.
Qed.

Lemma run_length (schedule : list Action) :
  forall s s', Inv s -> run schedule s = Some s' ->
    List.length schedule + remaining s' <= remaining s.
Proof.
  induction schedule as [|a schedule IH]; intros s s' HI Hrun; simpl in Hrun.
  - injection Hrun as <-. simpl. lia.
  - destruct (exec s a) as [s1|] eqn:Hex; [|discriminate].
    pose proof (exec_remaining _ _ _ HI Hex).
    pose proof (IH s1 s' (exec_Inv _ _ _ HI Hex) Hrun). simpl. lia.
Qed.

(** Once the call has returned nothing happens any more. *)
Lemma returned_is_final (s : State) (a : Action) :
  returned s <> None -> exec s a = None.
Proof. unfold exec. destruct (returned s); [reflexivity | congruence]. Qed.

(** *** The happy path *)

Section Happy.

Variable f : nat -> T -> U.
Hypothesis translate_value : forall i x, translate i x = TValue (f i x).
Hypothesis consume_ok : forall h u, consume h u = COk.

Lemma exec_happy (s s' : State) (a : Action) :
  exec s a = Some s' ->
  forall r, returned s' = Some r -> r = None /\ next s' = List.length inputs.
Proof.
  intros Hex r Hr. pose proof (exec_running _ _ _ Hex) as Hrun.
  unfold exec in Hex. rewrite Hrun in Hex. destruct a as [i| |].
  - destruct (translated i s); [discriminate|].
    destruct (nth_error inputs i) as [x|]; [|discriminate].
    rewrite translate_value in Hex. injection Hex as <-. discriminate.
  - destruct (translated (next s) s); [|discriminate].
    destruct (nth_error inputs (next s)) as [x|]; [|discriminate].
    rewrite translate_value, consume_ok in Hex. injection Hex as <-. discriminate.
  - destruct (Nat.eqb (next s) (List.length inputs)) eqn:Heq; [|discriminate].
    injection Hex as <-. simpl in *. apply Nat.eqb_eq in Heq. split; congruence.
Qed.

Lemma run_happy (schedule : list Action) :
  forall s s', run schedule s = Some s' -> returned s = None ->
    forall r, returned s' = Some r -> r = None /\ next s' = List.length inputs.
Proof.
  induction schedule as [|a schedule IH]; intros s s' Hrun Hs r Hr; simpl in Hrun.
  - injection Hrun as <-. congruence.
  - destruct (exec s a) as [s1|] eqn:Hex; [|discriminate].
    destruct (returned s1) as [r1|] eqn:Hr1.
    + destruct schedule as [|b schedule]; simpl in Hrun.
      * injection Hrun as <-. eapply exec_happy; eassumption.
      * rewrite returned_is_final in Hrun by congruence. discriminate.
    + eapply IH; eassumption.
Qed.

Lemma delivered_suffix (pre l : list T) :
  inputs = (pre ++ l)%list ->
  flat_map valueAt (seq (List.length pre) (List.length l))
  = map (fun ix => f (fst ix) (snd ix)) (combine (seq (List.length pre) (List.length l)) l).
Proof.
  revert pre. induction l as [|x l IH]; intros pre Hin; [reflexivity|].
  cbn [List.length seq flat_map combine map fst snd].
  assert (Hx : nth_error inputs (List.length pre) = Some x).
  { rewrite Hin, nth_error_app2, Nat.sub_diag by lia. reflexivity. }
  unfold valueAt at 1. rewrite Hx, translate_value. simpl. f_equal.
  specialize (IH (pre ++ [x])%list).
  rewrite length_app, Nat.add_1_r in IH. apply IH.
  rewrite Hin, <- app_assoc. reflexivity.
Qed.

Lemma delivered_all : delivered (List.length inputs) = mapIndexed f.
Proof. exact (delivered_suffix [] inputs eq_refl). Qed.

End Happy.

(** C5.  Whatever the order in which the translations complete, [consume]
    is handed the values in the index order of the inputs.  On the happy
    path (translate always gives a value, consume always accepts) a call
    that has returned returned success, [consume] has been handed exactly
    map(translate, inputs), and translate has been invoked exactly once per
    element.  Every call returns: a schedule that takes it to its return
    exists, and no schedule is longer than two steps per element and one. *)
Theorem consume_sees_index_order :
  (forall schedule s,
      run schedule init = Some s -> consumed s = delivered (next s))
  /\ (forall f : nat -> T -> U,
        (forall i x, translate i x = TValue (f i x)) ->
        (forall h u, consume h u = COk) ->
        forall schedule s r,
          run schedule init = Some s -> returned s = Some r ->
          TranslateSliceParallel schedule = Some None
          /\ consumed s = mapIndexed f
          /\ Permutation (calls s) (seq 0 (List.length inputs)))
  /\ (exists schedule s r, run schedule init = Some s /\ returned s = Some r)
  /\ (forall schedule s,
        run schedule init = Some s ->
        List.length schedule <= 2 * List.length inputs + 1).
Proof.
  split; [|split; [|split]].
  - intros schedule s Hrun. apply (inv_consumed s). eapply run_Inv; [apply init_Inv | exact Hrun].
  - intros f Hf Hc schedule s r Hrun Hr.
    pose proof (run_Inv schedule init s init_Inv Hrun) as HI.
    destruct (run_happy f Hf Hc schedule init s Hrun eq_refl r Hr) as [-> Hnext].
    split; [|split].
    + unfold TranslateSliceParallel. now rewrite Hrun.
    + rewrite (inv_consumed s HI), Hnext. now apply delivered_all.
    + apply NoDup_Permutation; [apply (inv_nodup s HI) | apply seq_NoDup|].
      intros i. rewrite in_seq. split.
      * intros Hi. pose proof (inv_calls s HI i Hi). lia.
      * intros Hi. apply (inv_before s HI). lia.
  - apply (run_completes (remaining init) init (le_n _) init_Inv).
  - intros schedule s Hrun.
    pose proof (run_length schedule init s init_Inv Hrun) as H.
    unfold remaining in H at 2. simpl in H. lia.
Qed.

(** C6.  If a translate call returned an error, that error is what the call
    returns; once the call has returned (its work cancelled) nothing
    happens any more, so [consume] is not invoked again; and when every
    translate call errs, [consume] is never invoked. *)
Theorem translate_error_cancels :
  forall schedule s,
    run schedule init = Some s ->
    (forall i x e,
        In i (calls s) -> nth_error inputs i = Some x -> translate i x = TErr e ->
        TranslateSliceParallel schedule = Some (Some e)
        /\ forall more s', run more s = Some s' -> more = [] /\ consumed s' = consumed s)
    /\ ((forall i x, exists e, translate i x = TErr e) -> consumed s = []).
Proof.
  intros schedule s Hrun.
  pose proof (run_Inv schedule init s init_Inv Hrun) as HI. split.
  - intros i x e Hi Hx Hte. pose proof (inv_err s HI i x e Hi Hx Hte) as Hret.
    split.
    + unfold TranslateSliceParallel. now rewrite Hrun.
    + intros more s' Hmore. destruct more as [|a more]; simpl in Hmore.
      * injection Hmore as <-. now split.
      * rewrite returned_is_final in Hmore by congruence. discriminate.
  - intros Herr. rewrite (inv_consumed s HI). unfold delivered.
    induction (seq 0 (next s)) as [|i l IH]; [reflexivity|].
    simpl. rewrite IH. unfold valueAt.
    destruct (nth_error inputs i) as [x|]; [|reflexivity].
    destruct (Herr i x) as [e ->]. reflexivity.
Qed.

End Parallel.

End Translate.

(** ** Three elements, translated out of order *)

Module TranslateExamples.
Import Translate.

Definition numbers : list nat := [10; 20; 30].

(** Every element translates to itself plus its index. *)
Definition addIndex (i x : nat) : TranslateResult nat string := TValue _ _ (x + i).

(** Element 1 fails. *)
Definition failSecond (i x : nat) : TranslateResult nat string :=
  if Nat.eqb i 1 then TErr _ _ "Foobar" else TValue _ _ (x + i).

Definition accept (h : list nat) (u : nat) : ConsumeResult string := COk _.

Definition backwards : list Action :=
  [Translate 2; Translate 1; Translate 0; Deliver; Deliver; Deliver; Finish].

Lemma consume_sees_index_order_witness :
  TranslateSliceParallel nat nat string numbers addIndex accept backwards = Some None
  /\ (exists s,
        run nat nat string numbers addIndex accept backwards (init nat string) = Some s
        /\ consumed nat string s = [10; 21; 32]
        /\ Permutation (calls nat string s) [0; 1; 2]).
Proof.
  destruct (proj1 (proj2 (consume_sees_index_order nat nat string numbers addIndex accept))
              (fun i x => x + i) (fun i x => eq_refl) (fun h u => eq_refl)
              backwards
              (mkState nat string [2; 1; 0] 3 [10; 21; 32] (Some None)) None
              eq_refl eq_refl)
    as (Hret & Hcons & Hperm).
  split; [exact Hret|].
  eexists. split; [reflexivity | split; [exact Hcons | exact Hperm]].
Defined.

Lemma translate_error_cancels_witness :
  TranslateSliceParallel nat nat string numbers failSecond accept
    [Translate 0; Deliver; Translate 2; Translate 1] = Some (Some "Foobar")
  /\ (forall more s',
        run nat nat string numbers failSecond accept more
          (mkState nat string [0; 2; 1] 1 [10] (Some (Some "Foobar"))) = Some s' ->
        more = [] /\ consumed nat string s' = [10]).
Proof.
  exact (proj1 (translate_error_cancels nat nat string numbers failSecond accept
                  [Translate 0; Deliver; Translate 2; Translate 1]
                  (mkState nat string [0; 2; 1] 1 [10] (Some (Some "Foobar")))
                  eq_refl)
           1 20 "Foobar" (or_intror (or_intror (or_introl eq_refl))) eq_refl eq_refl).
Defined.

End TranslateExamples.

(** ** More on the path helpers *)

Module UtilsMore.
Import GoString GoStringFacts Utils.

Lemma replace_byte_id (x y : ascii) (s : string) :
  lacks x s ->
  replace_aux (String x EmptyString) (String y EmptyString) 0 s = s.
Proof.
  induction s as [|c s IH]; intros H; [reflexivity|].
  destruct H as [Hc Hs]. rewrite replace_byte_cons.
  destruct (Ascii.eqb x c) eqn:Heq.
  - apply Ascii.eqb_eq in Heq. congruence.
  - now rewrite IH.
Qed.

Lemma replace_byte_len (x y : ascii) (s : string) :
  len (replace_aux (String x EmptyString) (String y EmptyString) 0 s) = len s.
Proof.
  induction s as [|c s IH]; [reflexivity|].
  rewrite replace_byte_cons. unfold len in *. simpl. now rewrite IH.
Qed.

Lemma len_drop (n : nat) (s : string) : len (drop n s) = len s - n.
Proof.
  revert s. induction n as [|n IH]; intros s.
  - simpl. lia.
  - destruct s as [|c s]; [reflexivity|]. simpl. apply IH.
Qed.

(** A path that has no backslash and no drive prefix is returned as it is;
    with a drive prefix it only loses its first two bytes. *)
Theorem posix_path_unchanged :
  forall path : string,
    lacks backslash path ->
    (index 1 path <> Some colon -> ReplaceWindowsDriveWithLinuxPath path = path)
    /\ (index 1 path = Some colon ->
        ReplaceWindowsDriveWithLinuxPath path = drop 2 path).
Proof.
  intros path Hl. unfold ReplaceWindowsDriveWithLinuxPath, ReplaceAll.
  rewrite (replace_byte_id backslash slash path Hl). split.
  - intros Hne. destruct (index 1 path) as [c|] eqn:Hi.
    + unfold byte_eqb. destruct (Ascii.eqb c colon) eqn:Hc.
      * apply Ascii.eqb_eq in Hc. congruence.
      * now rewrite andb_false_r.
    + now rewrite andb_false_r.
  - intros Hi. rewrite Hi. unfold byte_eqb. rewrite Ascii.eqb_refl.
    destruct path as [|a [|b rest]]; try discriminate. reflexivity.
Qed.

Lemma posix_path_unchanged_witness :
  ReplaceWindowsDriveWithLinuxPath "/tmp/spec/file.yaml" = "/tmp/spec/file.yaml".
Proof.
  apply (proj1 (posix_path_unchanged "/tmp/spec/file.yaml"
                  ltac:(simpl; repeat split; discriminate))).
  discriminate.
Defined.

(** The result is as long as the path, less the two bytes of a drive
    prefix: no byte is added and none but the prefix is dropped. *)
Theorem ReplaceWindowsDriveWithLinuxPath_length :
  forall path : string,
    len (ReplaceWindowsDriveWithLinuxPath path)
    = match index 1 path with
      | Some c => if byte_eqb c colon then len path - 2 else len path
      | None => len path
      end.
Proof.
  intros path. unfold ReplaceWindowsDriveWithLinuxPath, ReplaceAll.
  destruct (index 1 path) as [c|] eqn:Hi.
  - destruct (byte_eqb c colon).
    + assert (Hlt : (1 <? len path)%nat = true).
      { destruct path as [|a [|b rest]]; try discriminate. reflexivity. }
      rewrite Hlt. simpl andb. cbv iota.
      now rewrite len_drop, replace_byte_len.
    + rewrite andb_false_r. apply replace_byte_len.
  - rewrite andb_false_r. apply replace_byte_len.
Qed.

Lemma hasPrefix_append (p t : string) : hasPrefix p (p ++ t) = true.
Proof.
  induction p as [|a p IH]; [reflexivity|].
  simpl. unfold byte_eqb. now rewrite Ascii.eqb_refl.
Qed.

(** For a non-empty separator the result of CheckPathOverlap begins with
    pathA: it is pathA itself when pathB is the single segment pathA ends
    with, and pathA followed by the separator otherwise. *)
Theorem CheckPathOverlap_extends_pathA :
  forall pathA pathB sep : string,
    sep <> EmptyString ->
    exists r,
      CheckPathOverlap pathA pathB sep = Some r
      /\ hasPrefix pathA r = true
      /\ (r = pathA \/ hasPrefix (pathA ++ sep) r = true).
Proof.
  intros pathA pathB sep Hsep.
  pose proof (Split_not_nil pathA sep Hsep) as Ha.
  pose proof (Split_not_nil pathB sep Hsep) as Hb.
  pose proof (Join_Split pathA sep Hsep) as HA.
  unfold CheckPathOverlap.
  destruct (Split pathB sep) as [|b0 btl]; [congruence|].
  destruct (Split pathA sep) as [|a0 atl] eqn:Ea; [congruence|].
  cbn [lastElem].
  set (b' := if String.eqb (last (a0 :: atl) EmptyString) b0 then btl else b0 :: btl).
  eexists. split; [reflexivity|].
  destruct b' as [|c b'].
  - rewrite app_nil_r, HA. split; [|now left].
    rewrite <- (append_nil_r pathA) at 2. apply hasPrefix_append.
  - rewrite Join_app by discriminate. rewrite HA. split.
    + apply hasPrefix_append.
    + right. rewrite <- append_assoc. apply hasPrefix_append.
Qed.

Lemma CheckPathOverlap_extends_pathA_witness :
  exists r,
    CheckPathOverlap "/a/b" "b" "/" = Some r
    /\ hasPrefix "/a/b" r = true
    /\ (r = "/a/b" \/ hasPrefix ("/a/b" ++ "/") r = true).
Proof. apply (CheckPathOverlap_extends_pathA "/a/b" "b" "/"). discriminate. Defined.

End UtilsMore.

(** ** More on the node builder *)

Module HighMore.
Import GoString Yaml Go Sort SortFacts High HighFacts.

Section Entries.

Variable TypeLabel : string.
Variable Encode : GoValue -> option Node.
Variable sorter : SliceSorter.

(** The tag an entry gets from the yaml struct tag of its field. *)
Definition tagNameOf (field : Field) : string := hd EmptyString (Split (YamlTag field) ",").

(** An entry made from a field of the high object. *)
Definition fromField (high : HighObject) (e : NodeEntry) : Prop :=
  exists field,
    In field high /\ Name field = Key e /\ exported (Key e)
    /\ YamlTag field <> "-" /\ isZeroValue (FieldValue field) = false
    /\ Tag e = tagNameOf field
    /\ Value e = entryValue TypeLabel (tagNameOf field) (FieldValue field)
    /\ Value e <> VNil.

(** An entry made from a key of the Extensions map. *)
Definition fromExtension (high : HighObject) (e : NodeEntry) : Prop :=
  exists tag entries,
    In (mkField "Extensions" tag (VMap (Some entries))) high
    /\ In (Key e, Value e) entries /\ Tag e = Key e.

Lemma addExtension_nodes (n n' : NodeBuilder) (k : string) (v : GoValue) :
  addExtension n (k, v) = Ok n' ->
  exists line, Nodes n' = (Nodes n ++ [mkEntry k k v line])%list.
Proof.
  unfold addExtension.
  destruct (lowIsZero (Low n)) as [zero|]; simpl; [|discriminate].
  match goal with |- (line <- ?c ;; _) = _ -> _ => destruct c as [line|] end; simpl;
    [|discriminate].
  intros H. injection H as <-. now exists line.
Qed.

Lemma foldM_addExtension_nodes (l : list (string * GoValue)) :
  forall n n', foldM addExtension l n = Ok n' ->
    exists added,
      Nodes n' = (Nodes n ++ added)%list
      /\ (forall e, In e added -> In (Key e, Value e) l /\ Tag e = Key e)
      /\ (forall k v, In (k, v) l -> exists line, In (mkEntry k k v line) added).
Proof.
  induction l as [|[k v] l IH]; intros n n' H; cbn [foldM] in H.
  - injection H as <-. exists []. rewrite app_nil_r. repeat split; intros; contradiction.
  - destruct (addExtension n (k, v)) as [n1|] eqn:Hadd; simpl in H; [|discriminate].
    destruct (addExtension_nodes _ _ _ _ Hadd) as [line Hn1].
    destruct (IH _ _ H) as (added & Hn' & Hfrom & Hall).
    exists (mkEntry k k v line :: added). split; [|split].
    + rewrite Hn', Hn1, <- app_assoc. reflexivity.
    + intros e [<- | He]; [simpl; auto|].
      destruct (Hfrom e He). split; [now right | assumption].
    + intros k' v' [Heq | Hin].
      * injection Heq as <- <-. exists line. now left.
      * destruct (Hall _ _ Hin) as [line' Hl]. exists line'. now right.
Qed.

Lemma FieldByName_found (high : HighObject) (key : string) (field : Field) :
  FieldByName high key = Some field -> In field high /\ Name field = key.
Proof.
  unfold FieldByName. intros H. apply find_some in H as [Hin Heq].
  apply String.eqb_eq in Heq. now split.
Qed.

(** What one call of [add] appends. *)
Lemma add_nodes (n n' : NodeBuilder) (key : string) :
  add TypeLabel n key = Ok n' ->
  exists added,
    Nodes n' = (Nodes n ++ added)%list
    /\ forall e, In e added -> fromField (High n) e \/ fromExtension (High n) e.
Proof.
  unfold add. destruct key as [|k0 key']; [discriminate|].
  destruct (IsLower k0) eqn:Hlow.
  { intros H. injection H as <-. exists []. rewrite app_nil_r. split; [reflexivity|].
    intros e []. }
  destruct (String.eqb (String k0 key') "Extensions") eqn:Hext.
  - destruct (FieldByName (High n) (String k0 key')) as [[nm tg v]|] eqn:Hf; [|discriminate].
    destruct v as [| | | | | |entries| | |]; try discriminate.
    intros H. apply foldM_addExtension_nodes in H as (added & Hn' & Hfrom & _).
    exists added. split; [exact Hn'|].
    intros e He. right. destruct (Hfrom e He) as [Hin Htag].
    apply FieldByName_found in Hf as [Hfin Hname]. simpl in Hname.
    apply String.eqb_eq in Hext. rewrite Hext in Hname. subst nm.
    destruct entries as [l|]; [|contradiction].
    exists tg, l. auto.
  - destruct (FieldByName (High n) (String k0 key')) as [field|] eqn:Hf; [|discriminate].
    destruct (String.eqb (YamlTag field) "-") eqn:Htag.
    { intros H. injection H as <-. exists []. rewrite app_nil_r. split; [reflexivity|].
      intros e []. }
    destruct (isZeroValue (FieldValue field)) eqn:Hz.
    { intros H. injection H as <-. exists []. rewrite app_nil_r. split; [reflexivity|].
      intros e []. }
    destruct (entryLine (Low n) (String k0 key')) as [line|]; cbn [bind]; [|discriminate].
    apply FieldByName_found in Hf as [Hfin Hname].
    apply String.eqb_neq in Htag.
    cbn [Value]. fold (tagNameOf field).
    destruct (entryValue TypeLabel (tagNameOf field) (FieldValue field)) eqn:Hv;
      intros H; injection H as <-; simpl;
      try (exists []; rewrite app_nil_r; split; [reflexivity | intros e []]);
      (eexists; split; [reflexivity|]; intros e [<- | []]; left;
       exists field; simpl; rewrite ?Hv; repeat split; auto; discriminate).
Qed.

Lemma foldM_add_nodes (keys : list string) :
  forall n n', foldM (add TypeLabel) keys n = Ok n' ->
    exists added,
      Nodes n' = (Nodes n ++ added)%list
      /\ forall e, In e added -> fromField (High n) e \/ fromExtension (High n) e.
Proof.
  induction keys as [|key keys IH]; intros n n' H; cbn [foldM] in H.
  - injection H as <-. exists []. rewrite app_nil_r. split; [reflexivity | intros e []].
  - destruct (add TypeLabel n key) as [n1|] eqn:Hadd; simpl in H; [|discriminate].
    destruct (add_nodes _ _ _ Hadd) as (a1 & Hn1 & Hfrom1).
    destruct (IH _ _ H) as (a2 & Hn' & Hfrom2).
    destruct (add_frame TypeLabel _ _ _ Hadd) as [HH _]. rewrite HH in Hfrom2.
    exists (a1 ++ a2)%list. split.
    + rewrite Hn', Hn1, <- app_assoc. reflexivity.
    + intros e He. apply in_app_or in He as [He | He]; auto.
Qed.

(** Every entry of a new builder is made from an exported field of the high
    object that is not hidden by the tag "-" and does not hold its zero
    value, or from a key of its Extensions map; the builder keeps the two
    objects it was given. *)
Theorem NewNodeBuilder_entries_come_from_fields :
  forall (high : HighObject) (low : LowArg) (nb : NodeBuilder),
    NewNodeBuilder TypeLabel high low = Ok nb ->
    High nb = high /\ Low nb = low
    /\ forall e, In e (Nodes nb) -> fromField high e \/ fromExtension high e.
Proof.
  intros high low nb H. unfold NewNodeBuilder in H.
  destruct (foldM_frame (add TypeLabel) (map Name high) (add_frame TypeLabel) _ _ H)
    as [HH HL].
  destruct (foldM_add_nodes _ _ _ H) as (added & Hn & Hfrom).
  simpl in *. repeat split; try assumption.
  intros e He. rewrite Hn in He. now apply Hfrom.
Qed.

Lemma foldM_split {A S : Type} (f : S -> A -> result S) (l1 l2 : list A) (s s' : S) :
  foldM f (l1 ++ l2)%list s = Ok s' ->
  exists s1, foldM f l1 s = Ok s1 /\ foldM f l2 s1 = Ok s'.
Proof.
  rewrite foldM_app. destruct (foldM f l1 s) as [s1|]; simpl; [|discriminate].
  intros H. now exists s1.
Qed.

(** No field is lost: an exported field that is not hidden, does not hold
    its zero value and is given a value by [add] has its entry in the new
    builder, under the line the low object gives it. *)
Theorem NewNodeBuilder_keeps_every_field :
  forall (high : HighObject) (low : LowArg) (nb : NodeBuilder) (field : Field),
    NewNodeBuilder TypeLabel high low = Ok nb ->
    In field high ->
    NoDup (map Name high) ->
    exported (Name field) ->
    Name field <> "Extensions" ->
    YamlTag field <> "-" ->
    isZeroValue (FieldValue field) = false ->
    entryValue TypeLabel (tagNameOf field) (FieldValue field) <> VNil ->
    exists line,
      entryLine low (Name field) = Ok line
      /\ In (mkEntry (tagNameOf field) (Name field)
               (entryValue TypeLabel (tagNameOf field) (FieldValue field)) line)
            (Nodes nb).
Proof.
  intros high low nb field Hnew Hin Hnd Hexp Hext Htag Hz Hv.
  unfold NewNodeBuilder in Hnew.
  destruct (in_split _ _ (in_map Name _ _ Hin)) as (pre & post & Hsplit).
  rewrite Hsplit in Hnew.
  apply foldM_split in Hnew as (n1 & Hpre & Hrest).
  cbn [foldM] in Hrest.
  destruct (add TypeLabel n1 (Name field)) as [n2|] eqn:Hadd; simpl in Hrest;
    [|discriminate].
  destruct (foldM_frame (add TypeLabel) pre (add_frame TypeLabel) _ _ Hpre) as [HH HL].
  simpl in HH, HL.
  destruct (foldM_add_nodes _ _ _ Hrest) as (added & Hnb & _).
  unfold add in Hadd. destruct (Name field) as [|k0 key'] eqn:Hname; [contradiction|].
  simpl in Hexp. rewrite Hexp in Hadd.
  apply String.eqb_neq in Hext. rewrite Hext in Hadd.
  rewrite HH, <- Hname, (FieldByName_In high field Hin Hnd) in Hadd.
  apply String.eqb_neq in Htag. rewrite Htag, Hz in Hadd.
  rewrite HL, Hname in Hadd.
  destruct (entryLine low (String k0 key')) as [line|]; cbn [bind] in Hadd; [|discriminate].
  exists line. split; [reflexivity|].
  cbn [Value] in Hadd. fold (tagNameOf field) in Hadd.
  destruct (entryValue TypeLabel (tagNameOf field) (FieldValue field)) eqn:Hev;
    try congruence;
    injection Hadd as <-; rewrite Hnb; simpl;
    apply in_or_app; left; apply in_or_app; right; now left.
Qed.

(** *** What Render returns *)

Lemma attach_shape (parent p' : Node) (tag : string) (e : Emission) :
  attach parent tag e = Ok p' ->
  NodeKind p' = NodeKind parent /\ NodeTag p' = NodeTag parent.
Proof.
  unfold attach. destruct e as [|valueNode]; [intros H; injection H as <-; now split|].
  destruct (String.eqb tag EmptyString).
  - destruct valueNode; [|discriminate]. intros H. injection H as <-. now split.
  - intros H. injection H as <-. now split.
Qed.

Lemma foldM_AddYAMLNode_shape (n : NodeBuilder) (entries : list NodeEntry) :
  forall m m',
    foldM (fun m node => AddYAMLNode Encode sorter n m (Tag node) (Key node) (Value node))
      entries m = Ok m' ->
    NodeKind m' = NodeKind m /\ NodeTag m' = NodeTag m.
Proof.
  induction entries as [|e entries IH]; intros m m' H; cbn [foldM] in H.
  - injection H as <-. now split.
  - destruct (AddYAMLNode Encode sorter n m (Tag e) (Key e) (Value e)) as [m1|] eqn:Ha;
      simpl in H; [|discriminate].
    unfold AddYAMLNode in Ha.
    destruct (valueNodeOf _ _ _ _ _) as [em|]; simpl in Ha; [|discriminate].
    apply attach_shape in Ha as [<- <-]. now apply IH.
Qed.

Lemma Permutation_filter {A : Type} (f : A -> bool) (l l' : list A) :
  Permutation l l' -> Permutation (filter f l) (filter f l').
Proof.
  induction 1 as [|x l l' Hp IH|x y l|l l' l'' H1 IH1 H2 IH2]; simpl.
  - constructor.
  - destruct (f x); [now constructor | exact IH].
  - destruct (f x), (f y); try reflexivity. apply perm_swap.
  - now transitivity (filter f l').
Qed.

Lemma emittedPair_length (low : LowArg) (entries : list NodeEntry) :
  List.length (flat_map (emittedPair Encode sorter low) entries)
  = 2 * List.length (filter (emits Encode sorter low) entries).
Proof.
  induction entries as [|e entries IH]; [reflexivity|].
  cbn [flat_map filter]. rewrite length_app, IH.
  assert (Hhead : List.length (emittedPair Encode sorter low e)
                  = if emits Encode sorter low e then 2 else 0).
  { unfold emittedPair, emits.
    destruct (valueNodeOf _ _ _ _ _) as [[|valueNode]|msg]; reflexivity. }
  rewrite Hhead. destruct (emits Encode sorter low e); simpl; lia.
Qed.

(** Whatever the sort does with the entries, Render returns a mapping node
    tagged !!map; when no entry has an empty tag its content is one key
    scalar and one value per emitting entry, and its keys are the tags of
    the emitting entries, none lost and none repeated. *)
Theorem Render_returns_the_mapping_of_its_entries :
  forall (nb : NodeBuilder) (m : Node),
    Render Encode sorter nb = Ok m ->
    NodeKind m = MappingNode /\ NodeTag m = "!!map"
    /\ ((forall e, In e (Nodes nb) -> Tag e <> EmptyString) ->
        Permutation (mappingKeys (Content m))
          (map Tag (filter (emits Encode sorter (Low nb)) (Nodes nb)))
        /\ List.length (Content m)
           = 2 * List.length (filter (emits Encode sorter (Low nb)) (Nodes nb))).
Proof.
  intros nb m Hr.
  pose proof (foldM_AddYAMLNode_shape nb _ _ _ Hr) as [Hk Ht].
  split; [exact Hk | split; [exact Ht|]].
  intros Htags.
  assert (Hperm : Permutation (Nodes nb) (sortedNodes sorter nb))
    by apply (sortSlice_perm sorter).
  unfold Render in Hr. apply foldM_AddYAMLNode_content in Hr.
  - simpl in Hr. rewrite Hr. split.
    + rewrite mappingKeys_emitted. apply Permutation_map, Permutation_filter.
      now apply Permutation_sym.
    + rewrite emittedPair_length. f_equal. apply Permutation_length.
      apply Permutation_filter. now apply Permutation_sym.
  - intros e He. apply Htags.
    eapply Permutation_in; [apply Permutation_sym, Hperm | exact He].
Qed.

(** *** Values AddYAMLNode cannot take *)

Definition isNumber (v : GoValue) : bool :=
  match v with
  | VInt _ | VNumber _ => true
  | _ => false
  end.

Lemma foldM_panics {A S : Type} (f : S -> A -> result S) (a : A) (l : list A) :
  (forall s, exists msg, f s a = Panic msg) ->
  In a l -> forall s, exists msg, foldM f l s = Panic msg.
Proof.
  intros Hp. induction l as [|b l IH]; intros Hin s; [contradiction|].
  cbn [foldM]. destruct Hin as [-> | Hin].
  - destruct (Hp s) as [msg ->]. now exists msg.
  - destruct (f s b) as [s1|msg]; simpl; [now apply IH | now exists msg].
Qed.

Lemma Render_panics_on_number (nb : NodeBuilder) (e : NodeEntry) :
  In e (Nodes nb) -> isNumber (Value e) = true ->
  exists msg, Render Encode sorter nb = Panic msg.
Proof.
  intros Hin Hnum. unfold Render. apply foldM_panics with (a := e).
  - intros m. unfold AddYAMLNode.
    destruct (Value e); try discriminate; simpl; eauto.
  - eapply Permutation_in; [apply (sortSlice_perm sorter) | exact Hin].
Qed.

(** An integer or a float among the values of the Extensions map makes
    Render panic: the value reaches AddYAMLNode as it is, whose default
    branch asks a non-nilable value whether it is nil. *)
Theorem Render_panics_on_numeric_extension :
  forall (high : HighObject) (low : LowArg) (nb : NodeBuilder)
         (tag : string) (entries : list (string * GoValue)) (k : string) (v : GoValue),
    NewNodeBuilder TypeLabel high low = Ok nb ->
    NoDup (map Name high) ->
    In (mkField "Extensions" tag (VMap (Some entries))) high ->
    In (k, v) entries ->
    isNumber v = true ->
    exists msg, Render Encode sorter nb = Panic msg.
Proof.
  intros high low nb tag entries k v Hnew Hnd Hin Hkv Hnum.
  unfold NewNodeBuilder in Hnew.
  destruct (in_split _ _ (in_map Name _ _ Hin)) as (pre & post & Hsplit).
  rewrite Hsplit in Hnew. simpl Name in Hnew.
  apply foldM_split in Hnew as (n1 & Hpre & Hrest).
  cbn [foldM] in Hrest.
  destruct (add TypeLabel n1 "Extensions") as [n2|] eqn:Hadd; simpl in Hrest;
    [|discriminate].
  destruct (foldM_frame (add TypeLabel) pre (add_frame TypeLabel) _ _ Hpre) as [HH _].
  simpl in HH.
  destruct (foldM_add_nodes _ _ _ Hrest) as (added & Hnb & _).
  unfold add in Hadd. simpl in Hadd.
  rewrite HH in Hadd.
  pose proof (FieldByName_In high _ Hin Hnd) as Hf. simpl in Hf. rewrite Hf in Hadd.
  apply foldM_addExtension_nodes in Hadd as (ext & Hn2 & _ & Hall).
  destruct (Hall k v Hkv) as [line Hline].
  apply Render_panics_on_number with (e := mkEntry k k v line); [|exact Hnum].
  rewrite Hnb, Hn2. apply in_or_app. left. apply in_or_app. now right.
Qed.

(** *** Scalars and type slices *)

Lemma FormatInt_not_empty (i : Z) : FormatInt i <> EmptyString.
Proof.
  unfold FormatInt. destruct (Z.to_int i) as [d|d]; simpl; [|discriminate].
  destruct d; discriminate.
Qed.

(** An integer field is written as a string: the entry holds its decimal
    digits, and AddYAMLNode attaches them as a scalar tagged !!str. *)
Theorem integer_field_is_rendered_as_string :
  forall (n : NodeBuilder) (parent : Node) (tag key tagName : string) (i : Z),
    entryValue TypeLabel tagName (VInt i) = VString (FormatInt i)
    /\ AddYAMLNode Encode sorter n parent tag key (entryValue TypeLabel tagName (VInt i))
       = attach parent tag
           (Emit (Some (mkNode ScalarNode "!!str" (FormatInt i) 0 0 []))).
Proof.
  intros n parent tag key tagName i. split; [reflexivity|].
  unfold AddYAMLNode. simpl.
  pose proof (FormatInt_not_empty i) as Hne. apply String.eqb_neq in Hne.
  now rewrite Hne.
Qed.


(** *** Maps *)










End Entries.

(** *** An information object with extensions and a type slice *)

Definition taggedInfo : HighObject :=
  [mkField "Title" "title,omitempty" (VString "t");
   mkField "Type" "type,omitempty" (VSlice (Some [VString "string"; VString "null"]));
   mkField "Extensions" "-" (VMap (Some [("x-count", VInt 3)]))].

Lemma NewNodeBuilder_keeps_every_field_witness :
  exists line,
    entryLine LowNilPtr "Title" = Ok line
    /\ In (mkEntry "title" "Title" (VString "t") line)
         (Nodes (mkBuilder [mkEntry "title" "Title" (VString "t") 0;
                            mkEntry "x-count" "x-count" (VInt 3) 0]
                   taggedInfo LowNilPtr)).
Proof.
  apply (NewNodeBuilder_keeps_every_field "type" taggedInfo LowNilPtr
           (mkBuilder [mkEntry "title" "Title" (VString "t") 0;
                       mkEntry "x-count" "x-count" (VInt 3) 0] taggedInfo LowNilPtr)
           (mkField "Title" "title,omitempty" (VString "t"))).
  - reflexivity.
  - now left.
  - repeat constructor; simpl; intuition discriminate.
  - reflexivity.
  - discriminate.
  - discriminate.
  - reflexivity.
  - discriminate.
Defined.

Lemma NewNodeBuilder_entries_come_from_fields_witness :
  Forall (fun e => fromField "type" taggedInfo e \/ fromExtension taggedInfo e)
    [mkEntry "title" "Title" (VString "t") 0; mkEntry "x-count" "x-count" (VInt 3) 0].
Proof.
  apply Forall_forall.
  exact (proj2 (proj2 (NewNodeBuilder_entries_come_from_fields "type" taggedInfo LowNilPtr
                         (mkBuilder [mkEntry "title" "Title" (VString "t") 0;
                                     mkEntry "x-count" "x-count" (VInt 3) 0]
                            taggedInfo LowNilPtr) eq_refl))).
Defined.

Lemma Render_panics_on_numeric_extension_witness :
  exists msg,
    Render noEncode insertionSorter
      (mkBuilder [mkEntry "title" "Title" (VString "t") 0;
                  mkEntry "x-count" "x-count" (VInt 3) 0] taggedInfo LowNilPtr)
    = Panic msg.
Proof.
  apply (Render_panics_on_numeric_extension "type" noEncode insertionSorter
           taggedInfo LowNilPtr _ "-" [("x-count", VInt 3)] "x-count" (VInt 3)).
  - reflexivity.
  - repeat constructor; simpl; intuition discriminate.
  - simpl. tauto.
  - now left.
  - reflexivity.
Defined.


Lemma Render_returns_the_mapping_of_its_entries_witness :
  NodeKind (mkNode MappingNode "!!map" EmptyString 0 0
              [Some (CreateStringNode "description"); Some (CreateStringNode "d");
               Some (CreateStringNode "title"); Some (CreateStringNode "t")])
  = MappingNode.
Proof.
  exact (proj1 (Render_returns_the_mapping_of_its_entries noEncode insertionSorter
                  (mkBuilder [titleEntry; descriptionEntry 0] editedInfo parsedInfo)
                  _ eq_refl)).
Defined.



End HighMore.

(** ** More on createDocument *)

Module LowMore.
Import Yaml Go Low LowFacts.

Definition isNone {A : Type} (o : option A) : bool :=
  match o with Some _ => false | None => true end.

Definition isSome {A : Type} (o : option A) : bool :=
  match o with Some _ => true | None => false end.

Section V3.
Import LowV3.

Context {T : Types} {X : Externals}.

Ltac unfold_extractors :=
  unfold extractInfo, extractServers, extractTags, extractComponents,
    extractSecurity, extractExternalDocs, extractPaths, extractWebhooks, bind.

(** The document an extraction function leaves. *)
Definition docAfter (info : SpecInfo) (idx : option SpecIndex) (d : Document)
  (f : ExtractionFunc) : Document :=
  match runFunc f info d idx with
  | Ok (d', _) => d'
  | Panic _ => d
  end.

(** Each extraction function writes a field of its own, with a value that
    does not depend on the document: any two of them commute. *)
Lemma docAfter_commute (info : SpecInfo) (idx : option SpecIndex) (root : Node)
  (f g : ExtractionFunc) (d : Document) :
  rootOf info = Ok root ->
  docAfter info idx (docAfter info idx d f) g
  = docAfter info idx (docAfter info idx d g) f.
Proof.
  intros Hroot. unfold docAfter.
  destruct f, g; cbn [runFunc]; unfold_extractors; rewrite ?Hroot;
    repeat (break_match_goal; subst; cbn [fst snd]);
    try discriminate;
    repeat match goal with
           | H : Ok _ = Ok _ |- _ => injection H as ?; subst
           | H : (_, _) = (_, _) |- _ => injection H as ? ?; subst
           end;
    try reflexivity; try congruence.
Qed.

Lemma fold_docAfter_perm (info : SpecInfo) (idx : option SpecIndex) (root : Node)
  (s1 s2 : list ExtractionFunc) :
  rootOf info = Ok root ->
  Permutation s1 s2 ->
  forall d, fold_left (docAfter info idx) s1 d = fold_left (docAfter info idx) s2 d.
Proof.
  intros Hroot Hp. induction Hp as [|f l l' Hp IH|f g l|l l' l'' H1 IH1 H2 IH2]; intros d.
  - reflexivity.
  - simpl. apply IH.
  - simpl. f_equal. symmetry. eapply docAfter_commute; eassumption.
  - now rewrite IH1.
Qed.

(** With a root node, the shared state after a schedule: the document is
    the fold of the functions' effects, the errors are appended in the
    order the functions ran. *)
Lemma foldM_runExtraction_exact (info : SpecInfo) (idx : option SpecIndex) (root : Node)
  (schedule : list ExtractionFunc) :
  rootOf info = Ok root ->
  forall s,
    foldM (runExtraction info idx) schedule s
    = Ok (mkShared (fold_left (docAfter info idx) schedule (sharedDoc s))
            (sharedErrs s ++ flat_map (errorOf info idx) schedule)%list
            (ran s ++ schedule)%list).
Proof.
  intros Hroot. induction schedule as [|f schedule IH]; intros s.
  - simpl. rewrite !app_nil_r. now destruct s.
  - destruct (runFunc_ok info idx root f (sharedDoc s) Hroot) as (doc & er & Hrun & _ & He).
    cbn [foldM flat_map fold_left]. unfold runExtraction at 1, docAfter at 2.
    rewrite Hrun. cbn [bind]. rewrite IH. cbn [sharedDoc sharedErrs ran].
    rewrite He. f_equal. f_equal.
    + destruct er; simpl; now rewrite <- ?app_assoc.
    + now rewrite <- app_assoc.
Qed.

(** The document createDocument returns does not depend on the order in
    which the goroutines of the extraction functions ran; only the order of
    the errors joined beside it does. *)
Theorem schedule_does_not_change_the_document :
  forall (info : SpecInfo) (config : DocumentConfiguration)
         (s1 s2 : list ExtractionFunc) (o1 o2 : Outcome)
         (root : Node) (rest : list (option Node)),
    Content (RootNode info) = Some root :: rest ->
    Permutation s1 s2 ->
    createDocument info config s1 = Ok o1 ->
    createDocument info config s2 = Ok o2 ->
    document o1 = document o2
    /\ (err o1 = err o2
        \/ exists l1 l2,
             err o1 = Some (joinError l1) /\ err o2 = Some (joinError l2)
             /\ Permutation l1 l2).
Proof.
  intros info config s1 s2 o1 o2 root rest Hroot Hp.
  assert (Hr : rootOf info = Ok root) by (unfold rootOf; now rewrite Hroot).
  unfold createDocument.
  destruct (FindKeyNodeFull OpenAPILabel (Content (RootNode info))) as [[k l] [vn|]];
    [|intros H1 H2; injection H1 as <-; injection H2 as <-; auto].
  destruct (addLocal _ _) as [r1|e];
    [|intros H1 H2; injection H1 as <-; injection H2 as <-; auto].
  destruct (addRemote _ _) as [r2|e];
    [|intros H1 H2; injection H1 as <-; injection H2 as <-; auto].
  rewrite Hroot.
  destruct (FindKeyNodeFull JSONSchemaDialectLabel _) as [[dk dl] dn].
  rewrite !(foldM_runExtraction_exact info _ root _ Hr). cbn [bind sharedDoc sharedErrs ran].
  intros H1 H2. injection H1 as <-. injection H2 as <-. cbn [document err].
  split.
  - f_equal. eapply fold_docAfter_perm; eassumption.
  - set (errs := GetCaughtErrors (indexRolodex config r2)).
    set (idx := GetRootIndex (indexRolodex config r2)).
    assert (Hperm : Permutation (errs ++ flat_map (errorOf info idx) s1)%list
                      (errs ++ flat_map (errorOf info idx) s2)%list).
    { apply Permutation_app_head. now apply Permutation_flat_map. }
    destruct (errs ++ flat_map (errorOf info idx) s1)%list as [|e1 l1] eqn:E1.
    + apply Permutation_nil in Hperm. rewrite Hperm. now left.
    + destruct (errs ++ flat_map (errorOf info idx) s2)%list as [|e2 l2] eqn:E2.
      * apply Permutation_sym, Permutation_nil in Hperm. discriminate.
      * right. exists (e1 :: l1), (e2 :: l2). auto.
Qed.

(** *** What the document carries besides its sections *)

Lemma runFunc_head (info : SpecInfo) (idx : option SpecIndex)
  (f : ExtractionFunc) (doc doc' : Document) (er : option error) :
  runFunc f info doc idx = Ok (doc', er) ->
  JsonSchemaDialect doc' = JsonSchemaDialect doc
  /\ Extensions doc' = Extensions doc
  /\ Index doc' = Index doc
  /\ DocRolodex doc' = DocRolodex doc.
Proof.
  destruct f; cbn [runFunc]; unfold_extractors; intros H;
    repeat break_match_hyp H; subst; try discriminate;
    injection H as ? ?; subst; repeat split; reflexivity.
Qed.

Lemma foldM_runExtraction_head (info : SpecInfo) (idx : option SpecIndex)
  (schedule : list ExtractionFunc) :
  forall s s', foldM (runExtraction info idx) schedule s = Ok s' ->
    JsonSchemaDialect (sharedDoc s') = JsonSchemaDialect (sharedDoc s)
    /\ Extensions (sharedDoc s') = Extensions (sharedDoc s)
    /\ Index (sharedDoc s') = Index (sharedDoc s)
    /\ DocRolodex (sharedDoc s') = DocRolodex (sharedDoc s).
Proof.
  induction schedule as [|f schedule IH]; intros s s' H; cbn [foldM] in H.
  - injection H as <-. repeat split.
  - unfold runExtraction at 1 in H.
    destruct (runFunc f info (sharedDoc s) idx) as [[doc er]|] eqn:Hrun; simpl in H;
      [|discriminate].
    apply IH in H. simpl in H. apply runFunc_head in Hrun.
    destruct H as (-> & -> & -> & ->). exact Hrun.
Qed.

(** What the two set-up steps do to the rolodex. *)
Lemma addLocal_flags (config : DocumentConfiguration) (r r1 : Rolodex) :
  addLocal config r = inl r1 ->
  IdxBaseURL (indexConfig r1) = IdxBaseURL (indexConfig r)
  /\ AllowRemoteLookup (indexConfig r1) = AllowRemoteLookup (indexConfig r)
  /\ AvoidCircularReferenceCheck (indexConfig r1) = AvoidCircularReferenceCheck (indexConfig r)
  /\ remoteFS r1 = remoteFS r
  /\ AllowFileLookup (indexConfig r1)
     = (AllowFileLookup (indexConfig r)
        || negb (String.eqb (IdxBasePath (indexConfig r)) EmptyString)
           && isNone (LocalFS config))
  /\ List.length (localFS r1)
     = List.length (localFS r)
       + (if String.eqb (IdxBasePath (indexConfig r)) EmptyString then 0 else 1).
Proof.
  unfold addLocal. destruct (String.eqb (IdxBasePath (indexConfig r)) EmptyString).
  - intros H. injection H as <-. rewrite orb_false_r, Nat.add_0_r. repeat split.
  - destruct (filepathAbs (BasePath config)) as [cwd [e|]]; [discriminate|].
    destruct (LocalFS config) as [fs|].
    + intros H. injection H as <-. simpl. rewrite orb_false_r, length_app.
      repeat split.
    + destruct (NewLocalFSWithConfig _) as [fileFS [e|]]; [discriminate|].
      intros H. injection H as <-. simpl. rewrite orb_true_r, length_app.
      repeat split.
Qed.

Lemma addRemote_flags (config : DocumentConfiguration) (r r2 : Rolodex) :
  addRemote config r = inl r2 ->
  AllowFileLookup (indexConfig r2) = AllowFileLookup (indexConfig r)
  /\ AvoidCircularReferenceCheck (indexConfig r2) = AvoidCircularReferenceCheck (indexConfig r)
  /\ localFS r2 = localFS r
  /\ AllowRemoteLookup (indexConfig r2)
     = (AllowRemoteLookup (indexConfig r)
        || isSome (IdxBaseURL (indexConfig r)) && isNone (RemoteFS config))
  /\ List.length (remoteFS r2)
     = List.length (remoteFS r)
       + (if isSome (IdxBaseURL (indexConfig r)) then 1 else 0).
Proof.
  unfold addRemote. destruct (IdxBaseURL (indexConfig r)) as [url|].
  - destruct (RemoteFS config) as [fs|].
    + destruct (BaseURL config) as [u|]; [|discriminate].
      intros H. injection H as <-. simpl. rewrite orb_false_r, length_app.
      repeat split.
    + destruct (NewRemoteFSWithConfig _) as [remote [e|]]; [discriminate|].
      intros H. injection H as <-. simpl. rewrite orb_true_r, length_app.
      repeat split.
  - intros H. injection H as <-. simpl. rewrite orb_false_r, Nat.add_0_r. repeat split.
Qed.

(** The rolodex of a returned document never runs the index's own circular
    reference check, has been indexed, and holds one local file system
    exactly when a base path is configured and one remote file system
    exactly when a base URL is.  File lookup is allowed only when
    createDocument made the local file system itself: with a base path and
    a file system handed in it stays off; likewise for remote lookup. *)
Theorem returned_rolodex_configuration :
  forall (info : SpecInfo) (config : DocumentConfiguration)
         (schedule : list ExtractionFunc) (out : Outcome) (d : Document),
    createDocument info config schedule = Ok out ->
    document out = Some d ->
    exists r,
      DocRolodex d = Some r
      /\ Index d = GetRootIndex r
      /\ AvoidCircularReferenceCheck (indexConfig r) = true
      /\ indexed r = true
      /\ circularChecked r = negb (SkipCircularReferenceCheck config)
      /\ AllowFileLookup (indexConfig r)
         = negb (String.eqb (BasePath config) EmptyString) && isNone (LocalFS config)
      /\ AllowRemoteLookup (indexConfig r)
         = isSome (BaseURL config) && isNone (RemoteFS config)
      /\ List.length (localFS r)
         = (if String.eqb (BasePath config) EmptyString then 0 else 1)
      /\ List.length (remoteFS r) = (if isSome (BaseURL config) then 1 else 0).
Proof.
  intros info config schedule out d Hrun Hdoc. unfold createDocument in Hrun.
  destruct (FindKeyNodeFull OpenAPILabel (Content (RootNode info))) as [[k l] [vn|]];
    [|injection Hrun as <-; discriminate].
  destruct (addLocal _ _) as [r1|e] eqn:Hlocal; [|injection Hrun as <-; discriminate].
  destruct (addRemote _ _) as [r2|e] eqn:Hremote; [|injection Hrun as <-; discriminate].
  destruct (Content (RootNode info)) as [|child rest]; [discriminate|].
  destruct (FindKeyNodeFull JSONSchemaDialectLabel _) as [[dk dl] dn].
  destruct (foldM _ _ _) as [s|] eqn:Hfold; simpl in Hrun; [|discriminate].
  injection Hrun as <-. simpl in Hdoc. injection Hdoc as <-.
  apply foldM_runExtraction_head in Hfold as (_ & _ & Hidx & Hrol).
  apply addLocal_flags in Hlocal as (L1 & L2 & L3 & L4 & L5 & L6).
  apply addRemote_flags in Hremote as (R1 & R2 & R3 & R4 & R5).
  exists (indexRolodex config r2). rewrite Hidx, Hrol.
  simpl in *. rewrite R1, R2, R3, R4, R5, L1, L2, L3, L4, L5, L6.
  destruct dn; simpl; repeat split; reflexivity.
Qed.

(** The dialect and the extensions of a returned document are those read
    from the root before the extraction functions ran: the dialect is the
    value of the `jsonSchemaDialect` node when there is one and stays empty
    otherwise. *)
Theorem returned_dialect_and_extensions :
  forall (info : SpecInfo) (config : DocumentConfiguration)
         (schedule : list ExtractionFunc) (out : Outcome) (d : Document),
    createDocument info config schedule = Ok out ->
    document out = Some d ->
    JsonSchemaDialect d
    = match FindKeyNodeFull JSONSchemaDialectLabel (Content (RootNode info)) with
      | (_, dialectLabel, Some dn) => mkNodeRef (NodeValue dn) dialectLabel (Some dn)
      | _ => zeroRef EmptyString
      end
    /\ exists child rest,
         Content (RootNode info) = child :: rest
         /\ Extensions d = Some (ExtractExtensions child).
Proof.
  intros info config schedule out d Hrun Hdoc. unfold createDocument in Hrun.
  destruct (FindKeyNodeFull OpenAPILabel (Content (RootNode info))) as [[k l] [vn|]];
    [|injection Hrun as <-; discriminate].
  destruct (addLocal _ _) as [r1|e]; [|injection Hrun as <-; discriminate].
  destruct (addRemote _ _) as [r2|e]; [|injection Hrun as <-; discriminate].
  destruct (Content (RootNode info)) as [|child rest]; [discriminate|].
  destruct (FindKeyNodeFull JSONSchemaDialectLabel _) as [[dk dl] dn].
  destruct (foldM _ _ _) as [s|] eqn:Hfold; simpl in Hrun; [|discriminate].
  injection Hrun as <-. simpl in Hdoc. injection Hdoc as <-.
  apply foldM_runExtraction_head in Hfold as (Hdial & Hext & _ & _).
  rewrite Hdial, Hext. split.
  - now destruct dn.
  - exists child, rest. split; [reflexivity|]. now destruct dn.
Qed.

Lemma buildTags_first (ln : option Node) (idx : option SpecIndex)
  (items : list (option Node)) (e : error) :
  buildTags ln idx items = inr e ->
  exists pre item post,
    items = (pre ++ item :: post)%list
    /\ IsNodeMap item = true
    /\ snd (buildTag ln item idx) = Some e
    /\ forall it, In it pre -> IsNodeMap it = true -> snd (buildTag ln it idx) = None.
Proof.
  induction items as [|tagN items IH]; [discriminate|].
  simpl. destruct (IsNodeMap tagN) eqn:Hmap.
  - destruct (buildTag ln tagN idx) as [tag [e0|]] eqn:Hb.
    + intros H. injection H as <-. exists [], tagN, items. rewrite Hb.
      repeat split; auto. intros it [].
    + destruct (buildTags ln idx items) as [tags|e0]; [discriminate|].
      intros H. injection H as <-.
      destruct (IH eq_refl) as (pre & item & post & -> & Hm & He & Hpre).
      exists (tagN :: pre), item, post. repeat split; auto.
      intros it [<- | Hin] Hi; [now rewrite Hb | now apply Hpre].
  - intros H. destruct (IH H) as (pre & item & post & -> & Hm & He & Hpre).
    exists (tagN :: pre), item, post. repeat split; auto.
    intros it [<- | Hin] Hi; [congruence | now apply Hpre].
Qed.

(** The error extractTags returns is that of the first tag, in document
    order, that fails to build: every mapping item before it built, and
    the document is left without tags. *)
Theorem extractTags_reports_the_first_failure :
  forall (info : SpecInfo) (doc doc' : Document) (idx : option SpecIndex) (e : error),
    extractTags info doc idx = Ok (doc', Some e) ->
    doc' = doc
    /\ exists root k ln vn pre item post,
         rootOf info = Ok root
         /\ FindKeyNodeFull TagsLabel (Content root) = (k, ln, Some vn)
         /\ Content vn = (pre ++ item :: post)%list
         /\ IsNodeMap item = true
         /\ snd (buildTag ln item idx) = Some e
         /\ forall it, In it pre -> IsNodeMap it = true ->
                       snd (buildTag ln it idx) = None.
Proof.
  intros info doc doc' idx e H. unfold extractTags in H.
  destruct (rootOf info) as [root|] eqn:Hroot; cbn [bind] in H; [|discriminate].
  destruct (FindKeyNodeFull TagsLabel (Content root)) as [[k ln] [vn|]] eqn:Hfind;
    [|discriminate].
  destruct (IsNodeArray (Some vn)); [|discriminate].
  destruct (buildTags ln idx (Content vn)) as [tags|e0] eqn:Hb; [discriminate|].
  injection H as <- <-. split; [reflexivity|].
  destruct (buildTags_first _ _ _ _ Hb) as (pre & item & post & Hc & Hm & He & Hpre).
  exists root, k, ln, vn, pre, item, post. repeat split; auto.
Qed.

End V3.

Section V30.
Import LowV30.

Context {T : Types} {X : Externals}.

Ltac unfold_extractors30 :=
  unfold extractInfo, extractServers, extractTags, extractComponents,
    extractSecurity, extractExternalDocs, extractPaths.

(** The document an extraction function leaves. *)
Definition docAfter30 (info : SpecInfo) (idx : SpecIndex) (d : Document)
  (f : ExtractionFunc) : Document :=
  fst (runFunc f info d idx).

Lemma docAfter30_commute (info : SpecInfo) (idx : SpecIndex)
  (f g : ExtractionFunc) (d : Document) :
  docAfter30 info idx (docAfter30 info idx d f) g
  = docAfter30 info idx (docAfter30 info idx d g) f.
Proof.
  unfold docAfter30.
  destruct f, g; cbn [runFunc]; unfold_extractors30;
    repeat (break_match_goal; subst; cbn [fst snd]);
    try discriminate;
    repeat match goal with
           | H : (_, _) = (_, _) |- _ => injection H as ? ?; subst
           end;
    try reflexivity; try congruence.
Qed.

Lemma fold_docAfter30_perm (info : SpecInfo) (idx : SpecIndex)
  (s1 s2 : list ExtractionFunc) :
  Permutation s1 s2 ->
  forall d, fold_left (docAfter30 info idx) s1 d = fold_left (docAfter30 info idx) s2 d.
Proof.
  intros Hp. induction Hp as [|f l l' Hp IH|f g l|l l' l'' H1 IH1 H2 IH2]; intros d.
  - reflexivity.
  - simpl. apply IH.
  - simpl. f_equal. symmetry. apply docAfter30_commute.
  - now rewrite IH1.
Qed.

Lemma fold_runExtraction30_doc (info : SpecInfo) (idx : SpecIndex)
  (schedule : list ExtractionFunc) :
  forall s,
    fst (fold_left (runExtraction info idx) schedule s)
    = fold_left (docAfter30 info idx) schedule (fst s).
Proof.
  induction schedule as [|f schedule IH]; intros s; [reflexivity|].
  simpl. rewrite IH. f_equal. unfold runExtraction, docAfter30.
  now destruct (runFunc f info (fst s) idx).
Qed.

Lemma runFunc30_head (info : SpecInfo) (idx : SpecIndex) (f : ExtractionFunc)
  (doc : Document) :
  Version (docAfter30 info idx doc f) = Version doc
  /\ Extensions (docAfter30 info idx doc f) = Extensions doc
  /\ Index (docAfter30 info idx doc f) = Index doc.
Proof.
  unfold docAfter30.
  destruct f; cbn [runFunc]; unfold_extractors30;
    repeat (break_match_goal; subst; cbn [fst snd]); repeat split; reflexivity.
Qed.

Lemma fold_docAfter30_head (info : SpecInfo) (idx : SpecIndex)
  (schedule : list ExtractionFunc) :
  forall doc,
    Version (fold_left (docAfter30 info idx) schedule doc) = Version doc
    /\ Extensions (fold_left (docAfter30 info idx) schedule doc) = Extensions doc
    /\ Index (fold_left (docAfter30 info idx) schedule doc) = Index doc.
Proof.
  induction schedule as [|f schedule IH]; intros doc; [repeat split|].
  simpl. destruct (IH (docAfter30 info idx doc f)) as (-> & -> & ->).
  apply runFunc30_head.
Qed.

(** The 3.0 CreateDocument has no version gate: it panics on a document
    node without children and otherwise always returns a document, whose
    Version is the one SpecInfo carries (with the document node as its
    value node), indexed over the document node, with the extensions of
    the first child. *)
Theorem CreateDocument30_always_returns :
  forall (info : SpecInfo) (schedule : list ExtractionFunc),
    (Content (RootNode info) = [] ->
     exists msg, CreateDocument info schedule = Panic msg)
    /\ (forall child rest,
          Content (RootNode info) = child :: rest ->
          exists d errs,
            CreateDocument info schedule = Ok (d, errs)
            /\ Version d = mkValueRef (SpecVersion info) (Some (RootNode info))
            /\ Index d = Some (NewSpecIndex (RootNode info))
            /\ Extensions d = Some (ExtractExtensions child)).
Proof.
  intros info schedule. unfold CreateDocument. split.
  - intros ->. eauto.
  - intros child rest ->.
    match goal with
    | |- context [fold_left ?f schedule ?s0] =>
        pose proof (fold_runExtraction30_doc info (NewSpecIndex (RootNode info))
                      schedule s0) as Hdoc;
        destruct (fold_left f schedule s0) as [d errs]
    end.
    exists d, errs. split; [reflexivity|].
    simpl in Hdoc. subst d.
    match goal with
    | |- context [fold_left _ schedule ?d0] =>
        destruct (fold_docAfter30_head info (NewSpecIndex (RootNode info)) schedule d0)
          as (-> & -> & ->)
    end.
    repeat split.
Qed.

(** The document the 3.0 CreateDocument returns does not depend on the
    order in which the goroutines ran; the errors are the same up to
    order. *)
Theorem schedule30_does_not_change_the_document :
  forall (info : SpecInfo) (s1 s2 : list ExtractionFunc)
         (d1 d2 : Document) (e1 e2 : list error),
    Permutation s1 s2 ->
    CreateDocument info s1 = Ok (d1, e1) ->
    CreateDocument info s2 = Ok (d2, e2) ->
    d1 = d2 /\ Permutation e1 e2.
Proof.
  intros info s1 s2 d1 d2 e1 e2 Hp. unfold CreateDocument.
  destruct (Content (RootNode info)) as [|child rest]; [discriminate|].
  intros H1 H2. injection H1 as H1. injection H2 as H2.
  pose proof (f_equal fst H1) as D1. pose proof (f_equal snd H1) as E1.
  pose proof (f_equal fst H2) as D2. pose proof (f_equal snd H2) as E2.
  rewrite fold_runExtraction30_doc in D1, D2.
  rewrite fold_runExtraction30 in E1, E2.
  simpl in *. subst. split.
  - now apply fold_docAfter30_perm.
  - now apply Permutation_flat_map.
Qed.

End V30.

End LowMore.

(** ** The small document again *)

Module LowMoreExamples.
Import Yaml Go Low LowFacts LowExamples LowMore.

Definition createIn (schedule : list LowV3.ExtractionFunc) (basePath : string)
  : result (@LowV3.Outcome unitTypes) :=
  @LowV3.createDocument unitTypes (sampleExternals None) sampleInfo
    (configWith basePath) schedule.

Lemma schedule_does_not_change_the_document_witness :
  exists o1 o2,
    createIn LowV3.extractionFuncs EmptyString = Ok o1
    /\ createIn (rev LowV3.extractionFuncs) EmptyString = Ok o2
    /\ LowV3.document o1 = LowV3.document o2.
Proof.
  eexists; eexists.
  split; [vm_compute; reflexivity|]. split; [vm_compute; reflexivity|].
  refine (proj1 (@schedule_does_not_change_the_document unitTypes (sampleExternals None)
                   sampleInfo (configWith EmptyString)
                   LowV3.extractionFuncs (rev LowV3.extractionFuncs) _ _
                   rootMapping [] eq_refl (Permutation_rev _) _ _));
    vm_compute; reflexivity.
Defined.

Lemma returned_rolodex_configuration_witness :
  exists out d,
    createIn LowV3.extractionFuncs "/specs" = Ok out
    /\ LowV3.document out = Some d
    /\ exists r,
         LowV3.DocRolodex d = Some r
         /\ LowV3.AllowFileLookup (LowV3.indexConfig r) = true
         /\ LowV3.AllowRemoteLookup (LowV3.indexConfig r) = false
         /\ List.length (LowV3.localFS r) = 1.
Proof.
  eexists; eexists.
  split; [vm_compute; reflexivity|]. split; [vm_compute; reflexivity|].
  edestruct (@returned_rolodex_configuration unitTypes (sampleExternals None)
               sampleInfo (configWith "/specs") LowV3.extractionFuncs)
    as (r & Hr & _ & _ & _ & _ & Hfile & Hremote & Hlocal & _);
    [vm_compute; reflexivity | vm_compute; reflexivity |].
  exists r. repeat split; assumption.
Defined.

Lemma returned_dialect_and_extensions_witness :
  exists out d,
    createIn LowV3.extractionFuncs EmptyString = Ok out
    /\ LowV3.document out = Some d
    /\ LowV3.JsonSchemaDialect d = zeroRef EmptyString.
Proof.
  eexists; eexists.
  split; [vm_compute; reflexivity|]. split; [vm_compute; reflexivity|].
  refine (proj1 (@returned_dialect_and_extensions unitTypes (sampleExternals None)
                   sampleInfo (configWith EmptyString) LowV3.extractionFuncs _ _ _ _));
    vm_compute; reflexivity.
Defined.

#[local] Existing Instance unitTypes.

(** Externals under which no tag builds. *)
Definition failingTags : @LowV3.Externals unitTypes :=
  {| LowV3.OpenAPILabel := "openapi";
     LowV3.JSONSchemaDialectLabel := "jsonSchemaDialect";
     LowV3.ServersLabel := "servers";
     LowV3.TagsLabel := "tags";
     LowV3.InfoLabel := "info";
     LowV3.ComponentsLabel := "components";
     LowV3.PathsLabel := "paths";
     LowV3.FindKeyNodeFull := lookupKey;
     LowV3.FindKeyNodeFullTop := lookupKey;
     LowV3.IsNodeArray := isArray;
     LowV3.IsNodeMap := isMap;
     LowV3.buildInfo := fun _ _ _ => tt;
     LowV3.buildServer := fun _ _ _ => tt;
     LowV3.buildTag := fun _ _ _ => (tt, Some (New "tag did not build"));
     LowV3.buildComponents := fun _ _ => (tt, None);
     LowV3.buildPaths := fun _ _ _ => (tt, None);
     LowV3.ExtractArraySecurity := fun _ _ => ([], None, None, None);
     LowV3.ExtractObjectExternalDocs := fun _ _ => (zeroRef None, None);
     LowV3.ExtractMapWebhooks := fun _ _ => (None, None, None, None);
     LowV3.ExtractExtensions := fun _ => tt;
     LowV3.filepathAbs := fun p => (p, None);
     LowV3.NewLocalFSWithConfig := fun _ => (tt, None);
     LowV3.NewRemoteFSWithConfig := fun _ => (tt, None);
     LowV3.withRemoteHandler := fun fs _ => fs;
     LowV3.GetCaughtErrors := fun _ => [];
     LowV3.GetRootIndex := fun _ => Some tt |}.

Lemma extractTags_reports_the_first_failure_witness :
  exists root k ln vn pre item post,
    rootOf sampleInfo = Ok root
    /\ @LowV3.FindKeyNodeFull unitTypes failingTags "tags" (Content root) = (k, ln, Some vn)
    /\ Content vn = (pre ++ item :: post)%list
    /\ isMap item = true
    /\ snd (@LowV3.buildTag unitTypes failingTags ln item None)
       = Some (New "tag did not build")
    /\ forall it, In it pre -> isMap it = true ->
                  snd (@LowV3.buildTag unitTypes failingTags ln it None) = None.
Proof.
  exact (proj2 (@extractTags_reports_the_first_failure unitTypes failingTags
                  sampleInfo blank3 blank3 None (New "tag did not build") eq_refl)).
Defined.

Lemma schedule30_does_not_change_the_document_witness :
  exists d1 e1 d2 e2,
    @LowV30.CreateDocument unitTypes30 sampleExternals30 sampleInfo LowV30.extractionFuncs
    = Ok (d1, e1)
    /\ @LowV30.CreateDocument unitTypes30 sampleExternals30 sampleInfo
         (rev LowV30.extractionFuncs)
       = Ok (d2, e2)
    /\ d1 = d2 /\ Permutation e1 e2.
Proof.
  do 4 eexists.
  split; [vm_compute; reflexivity|]. split; [vm_compute; reflexivity|].
  refine (@schedule30_does_not_change_the_document unitTypes30 sampleExternals30
            sampleInfo LowV30.extractionFuncs (rev LowV30.extractionFuncs) _ _ _ _
            (Permutation_rev _) _ _);
    vm_compute; reflexivity.
Defined.

End LowMoreExamples.
